(** * svgParser.ts: the SVG structural parser, embedded and verified

    The development follows [backend/src/utils/svgParser.ts]:
    - JavaScript numbers are IEEE 754 binary64 values, taken here as the
      Standard Library's [spec_float] at precision 53 and maximal exponent
      1024, with the library's executable [SFadd], [SFmul], [SFdiv] and
      comparisons;
    - the tree handed over by xml2js lives in a store of objects addressed
      by location, so that sharing and cycles between nodes can be written
      down and the [WeakSet] of visited nodes is a set of locations;
    - [extractAllElements] threads the mutable counters of the closure
      ([visited], [totalElementsCount], [items]) as an explicit state and
      returns in an error monad: a JavaScript [TypeError] is [Throw]. *)

From Stdlib Require Import Floats.SpecFloat Ascii String ZArith Lia.
From stdpp Require Import gmap strings list fin_maps.

(** ** JavaScript numbers *)

Module Num.
Local Open Scope Z_scope.

Abbreviation number := spec_float.

Definition prec : Z := 53.
Definition emax : Z := 1024.

Definition zero : number := S754_zero false.
Definition NaN : number := S754_nan.

Definition add : number -> number -> number := SFadd prec emax.
Definition mul : number -> number -> number := SFmul prec emax.
Definition div : number -> number -> number := SFdiv prec emax.

(** [a < b], [a > b], [a <= b] and [a === b] on numbers. *)
Definition lt (a b : number) : bool := SFltb a b.
Definition gt (a b : number) : bool := SFltb b a.
Definition le (a b : number) : bool := SFleb a b.
Definition eq (a b : number) : bool := SFeqb a b.

Definition isNaN (a : number) : bool :=
  match a with S754_nan => true | _ => false end.

Definition isFinite (a : number) : bool :=
  match a with S754_zero _ | S754_finite _ _ _ => true | _ => false end.

(** The number nearest to an integer (ties to even). *)
Definition ofZ (z : Z) : number := binary_normalize prec emax z 0 false.

(** The number nearest to [(-1)^neg * m * 10^e10], for [m >= 0]. *)
Definition ofDecimal (neg : bool) (m e10 : Z) : number :=
  match m with
  | Z0 => S754_zero neg
  | Zpos p =>
      if 0 <=? e10
      then binary_normalize prec emax (cond_Zopp neg (m * 10 ^ e10)) 0 false
      else SFdiv prec emax (S754_finite neg p 0)
                           (S754_finite false (Z.to_pos (10 ^ (- e10))) 0)
  | Zneg _ => S754_nan
  end.

End Num.

Import Num.

(** ** Strings and [parseFloat] *)

Module Str.
Local Open Scope Z_scope.

Definition code (c : ascii) : nat := nat_of_ascii c.

(** [\d] *)
Definition isDigit (c : ascii) : bool :=
  (48 <=? code c)%nat && (code c <=? 57)%nat.

(** [\s], and the characters [parseFloat] trims: TAB, LF, VT, FF, CR,
    SP and NBSP are the ones below code 256. *)
Definition isSpace (c : ascii) : bool :=
  ((9 <=? code c)%nat && (code c <=? 13)%nat)
  || (code c =? 32)%nat || (code c =? 160)%nat.

Definition digitVal (c : ascii) : Z := Z.of_nat (code c) - 48.

Definition chars (s : string) : list ascii := list_ascii_of_string s.
Definition ofChars (l : list ascii) : string := string_of_list_ascii l.

(** [s.replace(/[^\d.]/g, '')] *)
Definition keepDigitsAndDots (s : string) : string :=
  ofChars (List.filter (fun c => isDigit c || (code c =? 46)%nat) (chars s)).

(** [s.split(/[\s,]+/)]: the pieces between the maximal runs of
    separators; a run at either end leaves an empty piece there. *)
Definition isSep (c : ascii) : bool := isSpace c || (code c =? 44)%nat.

Fixpoint splitAux (cur : list ascii) (inSep : bool) (l : list ascii)
  : list string :=
  match l with
  | [] => [ofChars (rev cur)]
  | c :: l' =>
      if isSep c
      then if inSep then splitAux [] true l'
           else ofChars (rev cur) :: splitAux [] true l'
      else splitAux (c :: cur) false l'
  end.

Definition splitSep (s : string) : list string := splitAux [] false (chars s).

(** Reading a run of decimal digits: the value accumulated, the number
    of digits read and the rest. *)
Fixpoint readDigits (acc : Z) (n : Z) (l : list ascii)
  : Z * Z * list ascii :=
  match l with
  | c :: l' =>
      if isDigit c then readDigits (10 * acc + digitVal c) (n + 1) l'
      else (acc, n, l)
  | [] => (acc, n, l)
  end.

Fixpoint dropSpaces (l : list ascii) : list ascii :=
  match l with
  | c :: l' => if isSpace c then dropSpaces l' else l
  | [] => []
  end.

Fixpoint isPrefix (p l : list ascii) : bool :=
  match p, l with
  | [], _ => true
  | a :: p', b :: l' => (code a =? code b)%nat && isPrefix p' l'
  | _ :: _, [] => false
  end.

(** The exponent part [e|E [+|-] digits], when a digit follows. *)
Definition readExponent (l : list ascii) : Z :=
  match l with
  | c :: l1 =>
      if (code c =? 101)%nat || (code c =? 69)%nat then
        let '(neg, l2) :=
          match l1 with
          | d :: l2 =>
              if (code d =? 45)%nat then (true, l2)
              else if (code d =? 43)%nat then (false, l2)
              else (false, l1)
          | [] => (false, l1)
          end in
        let '(v, _, _) := readDigits 0 0 l2 in
        if neg then - v else v
      else 0
  | [] => 0
  end.

(** The longest prefix that is a [StrDecimalLiteral], as a number. *)
Definition parseUnsigned (neg : bool) (l : list ascii) : number :=
  if isPrefix (chars "Infinity") l then S754_infinity neg
  else
    let '(ip, ni, l1) := readDigits 0 0 l in
    match l1 with
    | c :: l2 =>
        if (code c =? 46)%nat then
          let '(m, nf, l3) := readDigits ip 0 l2 in
          if (ni =? 0) && (nf =? 0) then S754_nan
          else ofDecimal neg m (readExponent l3 - nf)
        else if ni =? 0 then S754_nan
        else ofDecimal neg ip (readExponent l1)
    | [] => if ni =? 0 then S754_nan else ofDecimal neg ip 0
    end.

(** [parseFloat(s)] *)
Definition parseFloat (s : string) : number :=
  match dropSpaces (chars s) with
  | c :: l =>
      if (code c =? 45)%nat then parseUnsigned true l
      else if (code c =? 43)%nat then parseUnsigned false l
      else parseUnsigned false (c :: l)
  | [] => S754_nan
  end.

End Str.

Import Str.

(** ** The tree built by xml2js

    A node is a string (an element with neither attributes nor child
    elements: its text, possibly empty) or an object; an object is an
    element, with its attribute map under [$] when it has attributes and
    its children under their tag names, or an array of sibling nodes.
    Objects have an identity: the store maps locations to objects, and a
    value refers to an object by its location. *)

Definition loc := nat.

Inductive val :=
| VUndef
| VStr (s : string)
| VRef (l : loc).

Inductive obj :=
| OElem (attrs : option (gmap string string)) (children : gmap string val)
| OArr (elems : list val).

(** Every location holds an object. *)
Definition heap := loc -> obj.

(** ** Outcomes: a value, a thrown [TypeError], or fuel exhausted *)

Inductive res (A : Type) :=
| Ok (a : A)
| Throw
| OutOfFuel.
Arguments Ok {A} a.
Arguments Throw {A}.
Arguments OutOfFuel {A}.

#[global] Instance res_ret : MRet res := fun A a => Ok a.

#[global] Instance res_bind : MBind res := fun A B k m =>
  match m with
  | Ok a => k a
  | Throw => Throw
  | OutOfFuel => OutOfFuel
  end.

(** [arr.forEach(f)] with the state threaded through the calls. *)
Fixpoint forEach {A S} (f : A -> S -> res S) (l : list A) (st : S) : res S :=
  match l with
  | [] => Ok st
  | a :: l' => st' ← f a st; forEach f l' st'
  end.

(** ** Property access *)

Section Access.
Variable h : heap.

(** [if (v)] *)
Definition truthy (v : val) : bool :=
  match v with
  | VUndef => false
  | VStr s => negb (String.eqb s "")
  | VRef _ => true
  end.

(** [v[k]] for a child tag name [k]; reading a property of [undefined]
    throws, a string or an array has none of these names. *)
Definition getProp (v : val) (k : string) : res val :=
  match v with
  | VUndef => Throw
  | VStr _ => Ok VUndef
  | VRef l =>
      match h l with
      | OElem _ ch => Ok (default VUndef (ch !! k))
      | OArr _ => Ok VUndef
      end
  end.

(** [v.$] *)
Definition getAttrs (v : val) : res (option (gmap string string)) :=
  match v with
  | VUndef => Throw
  | VStr _ => Ok None
  | VRef l =>
      match h l with
      | OElem a _ => Ok a
      | OArr _ => Ok None
      end
  end.

(** [Array.isArray(v) ? v : [v]] *)
Definition asArray (v : val) : list val :=
  match v with
  | VRef l => match h l with OArr vs => vs | OElem _ _ => [v] end
  | _ => [v]
  end.

End Access.

(** [a[k] || d] on an attribute map. *)
Definition attrOr (a : gmap string string) (k d : string) : string :=
  match a !! k with
  | Some s => if String.eqb s "" then d else s
  | None => d
  end.

(** ** The result *)

Inductive DesignIssue := EMPTY | OUT_OF_BOUNDS.

#[global] Instance DesignIssue_eq_dec : EqDecision DesignIssue.
Proof. solve_decision. Defined.

Record IDesignItem := {
  x : number;
  y : number;
  width : number;
  height : number;
  fill : string;
  issue : option DesignIssue
}.

Record ParsedSVGResult := {
  svgWidth : number;
  svgHeight : number;
  items : list IDesignItem;
  itemsCount : nat;
  coverageRatio : number;
  issues : list DesignIssue
}.

(** ** Dimension resolution (the head of the [parseString] callback) *)

(** [n === 0 || isNaN(n)] *)
Definition unresolved (n : number) : bool := Num.eq n zero || isNaN n.

(** [s.split(/[\s,]+/).map(parseFloat).filter(n => !isNaN(n))] *)
Definition parseViewBox (s : string) : list number :=
  List.filter (fun n => negb (isNaN n)) (List.map parseFloat (splitSep s)).

(** [if (attr) n = parseFloat(attr.toString().replace(/[^\d.]/g, ''))] *)
Definition dimensionAttr (a : gmap string string) (k : string) : number :=
  match a !! k with
  | Some s =>
      if String.eqb s "" then zero else parseFloat (keepDigitsAndDots s)
  | None => zero
  end.

(** The body of [if (svgElement?.$) { ... }]: the size after the
    attributes and the [viewBox], before the default. *)
Definition attrDimensions (a : gmap string string) : number * number :=
  let svgWidth := dimensionAttr a "width" in
  let svgHeight := dimensionAttr a "height" in
  match a !! "viewBox" with
  | Some s =>
      if String.eqb s "" then (svgWidth, svgHeight)
      else
        match parseViewBox s with
        | [_; _; vw; vh] =>
            (if unresolved svgWidth then vw else svgWidth,
             if unresolved svgHeight then vh else svgHeight)
        | _ => (svgWidth, svgHeight)
        end
  | None => (svgWidth, svgHeight)
  end.

(** [if (unresolved(w) && unresolved(h)) { w = 100; h = 100 }] *)
Definition applyDefault (d : number * number) : number * number :=
  if unresolved d.1 && unresolved d.2 then (ofZ 100, ofZ 100) else d.

Definition resolveDimensions (h : heap) (result : val)
  : res (number * number) :=
  svg ← getProp h result "svg";
  let svgElement := if truthy svg then svg else result in
  oa ← getAttrs h svgElement;
  Ok (applyDefault
        match oa with
        | Some a => attrDimensions a
        | None => (zero, zero)
        end).

(** ** The element walker *)

(** The variables of the closure that [extractAllElements] updates;
    [found] is the [items] array while it is being filled. *)
Record walker := {
  visited : gset loc;
  totalElementsCount : nat;
  found : list IDesignItem
}.

Definition MAX_RECURSION_DEPTH : nat := 100.

Definition elementTypes : list string :=
  ["rect"; "path"; "circle"; "ellipse"; "polygon"; "polyline"; "line";
   "text"; "use"; "image"].

(** [x < 0 || y < 0 || x + width > svgWidth || y + height > svgHeight] *)
Definition isOutOfBounds (cw ch x y width height : number) : bool :=
  lt x zero || lt y zero || gt (add x width) cw || gt (add y height) ch.

Section Walk.
Variable h : heap.
Variables canvasWidth canvasHeight : number.

(** The body of [rects.forEach((rect) => { ... })]. *)
Definition extractRect (rect : val) (st : walker) : res walker :=
  oa ← getAttrs h rect;
  match oa with
  | None => Throw
  | Some a =>
      let x := parseFloat (attrOr a "x" "0") in
      let y := parseFloat (attrOr a "y" "0") in
      let width := parseFloat (attrOr a "width" "0") in
      let height := parseFloat (attrOr a "height" "0") in
      let fill := attrOr a "fill" "#000000" in
      let item :=
        {| x := x; y := y; width := width; height := height; fill := fill;
           issue := if isOutOfBounds canvasWidth canvasHeight x y width height
                    then Some OUT_OF_BOUNDS else None |} in
      Ok {| visited := visited st;
            totalElementsCount := totalElementsCount st;
            found := found st ++ [item] |}
  end.

(** One round of [elementTypes.forEach((type) => { ... })]. *)
Definition countType (element : val) (st : walker) (type : string)
  : res walker :=
  v ← getProp h element type;
  Ok (if truthy v
      then {| visited := visited st;
              totalElementsCount :=
                (totalElementsCount st + length (asArray h v))%nat;
              found := found st |}
      else st).

Fixpoint countTypes (element : val) (types : list string) (st : walker)
  : res walker :=
  match types with
  | [] => Ok st
  | type :: types' =>
      st' ← countType element st type; countTypes element types' st'
  end.

Fixpoint extractAllElements (fuel : nat) (element : val) (depth : nat)
    (st : walker) : res walker :=
  match fuel with
  | O => OutOfFuel
  | S fuel' =>
      if negb (truthy element) || (MAX_RECURSION_DEPTH <? depth)%nat
      then Ok st
      else
        match element with
        | VRef l =>
            if bool_decide (l ∈ visited st) then Ok st
            else
              let st := {| visited := {[l]} ∪ visited st;
                           totalElementsCount := totalElementsCount st;
                           found := found st |} in
              st ← countTypes element elementTypes st;
              rect ← getProp h element "rect";
              st ← (if truthy rect
                    then forEach extractRect (asArray h rect) st
                    else Ok st);
              g ← getProp h element "g";
              st ← (if truthy g
                    then forEach
                           (fun group =>
                              extractAllElements fuel' group (S depth))
                           (asArray h g) st
                    else Ok st);
              svg ← getProp h element "svg";
              if truthy svg && (0 <? depth)%nat
              then forEach
                     (fun svg => extractAllElements fuel' svg (S depth))
                     (asArray h svg) st
              else Ok st
        | _ => Throw
        end
  end.

End Walk.

(** The item [extractRect] builds from an attribute map. *)
Definition rectItem (cw ch : number) (a : gmap string string)
  : IDesignItem :=
  let x := parseFloat (attrOr a "x" "0") in
  let y := parseFloat (attrOr a "y" "0") in
  let width := parseFloat (attrOr a "width" "0") in
  let height := parseFloat (attrOr a "height" "0") in
  {| x := x; y := y; width := width; height := height;
     fill := attrOr a "fill" "#000000";
     issue := if isOutOfBounds cw ch x y width height
              then Some OUT_OF_BOUNDS else None |}.

(** ** The whole callback *)

Definition hasOutOfBounds (l : list IDesignItem) : bool :=
  existsb (fun item => bool_decide (issue item = Some OUT_OF_BOUNDS)) l.

Definition totalRectArea (l : list IDesignItem) : number :=
  foldl (fun sum item => add sum (mul (width item) (height item))) zero l.

(** Recursion below the cap goes at most [MAX_RECURSION_DEPTH + 1] calls
    deep; the walk is started with one more than that. *)
Definition walkFuel : nat := MAX_RECURSION_DEPTH + 2.

Definition initial : walker :=
  {| visited := ∅; totalElementsCount := 0; found := [] |}.

Definition parseTree (h : heap) (result : val) : res ParsedSVGResult :=
  d ← resolveDimensions h result;
  let svgWidth := d.1 in
  let svgHeight := d.2 in
  st ← extractAllElements h svgWidth svgHeight walkFuel result 0 initial;
  let issues :=
    (if (totalElementsCount st =? 0)%nat then [EMPTY] else [])
    ++ (if hasOutOfBounds (found st) then [OUT_OF_BOUNDS] else []) in
  let svgArea := mul svgWidth svgHeight in
  let coverageRatio :=
    if gt svgArea zero then div (totalRectArea (found st)) svgArea
    else zero in
  Ok {| svgWidth := svgWidth; svgHeight := svgHeight;
        items := found st; itemsCount := totalElementsCount st;
        coverageRatio := coverageRatio; issues := issues |}.

(** ** The detail page (frontend/src/pages/DesignDetails.tsx)

    The page consumes a design: its [svgWidth], [svgHeight] and [items].
    What the browser supplies (the size read back from the canvas, the
    position of its bounding box, the position of the pointer) comes in
    as numbers. *)

Module Page.

(** [a - b], [a >= b], [a <= b] *)
Definition sub : number -> number -> number := SFsub prec emax.
Definition ge (a b : number) : bool := SFleb b a.

(** The arguments of one call [ctx.fillRect(x, y, width, height)]. *)
Record fillRect := {
  rectX : number;
  rectY : number;
  rectWidth : number;
  rectHeight : number
}.

(** The body of [designData.items.forEach((item) => { ... })] in
    [drawInteractiveOverlay]: the call it makes, if any. *)
Definition overlayRect (scaleX scaleY : number) (item : IDesignItem)
  : option fillRect :=
  let x := mul (x item) scaleX in
  let y := mul (y item) scaleY in
  let width := mul (width item) scaleX in
  let height := mul (height item) scaleY in
  if isNaN x || isNaN y || isNaN width || isNaN height
     || le width zero || le height zero
  then None
  else Some {| rectX := x; rectY := y;
               rectWidth := width; rectHeight := height |}.

(** [drawInteractiveOverlay], once the canvas has been sized and cleared:
    the rectangles filled, in order. *)
Definition drawInteractiveOverlay (canvasWidth canvasHeight : number)
    (svgWidth svgHeight : number) (items : list IDesignItem)
  : list fillRect :=
  match items with
  | [] => []
  | _ =>
      let scaleX := div canvasWidth svgWidth in
      let scaleY := div canvasHeight svgHeight in
      omap (overlayRect scaleX scaleY) items
  end.

(** The test of [design.items.find((item) => ...)]. *)
Definition contains (svgX svgY : number) (item : IDesignItem) : bool :=
  ge svgX (x item) && le svgX (add (x item) (width item))
  && ge svgY (y item) && le svgY (add (y item) (height item)).

(** [handleCanvasMouseMove] with a design and a canvas at hand: the new
    value of [hoveredItem]. *)
Definition handleCanvasMouseMove (canvasWidth canvasHeight : number)
    (svgWidth svgHeight : number) (items : list IDesignItem)
    (left top clientX clientY : number)
  : option (IDesignItem * number * number) :=
  let x := sub clientX left in
  let y := sub clientY top in
  let scaleX := div canvasWidth svgWidth in
  let scaleY := div canvasHeight svgHeight in
  let svgX := div x scaleX in
  let svgY := div y scaleY in
  match List.find (contains svgX svgY) items with
  | Some hovered => Some (hovered, clientX, clientY)
  | None => None
  end.

End Page.

(** ** Vocabulary of the statements *)

(** A number that is not NaN and has sign bit [s]. *)
Definition signed (s : bool) (a : number) : Prop :=
  match a with
  | S754_zero s' | S754_infinity s' | S754_finite s' _ _ => s' = s
  | S754_nan => False
  end.

(** A rectangle with a finite, non-negative width and height. *)
Definition properRect (item : IDesignItem) : Prop :=
  isFinite (width item) = true /\ isFinite (height item) = true /\
  le zero (width item) = true /\ le zero (height item) = true.

(** The number read from attribute [k]: 0 when the attribute is absent or
    empty, what [parseFloat] makes of its text otherwise (NaN when the
    text does not start with a number). *)
Definition attrNumber (a : gmap string string) (k : string) : number :=
  match a !! k with
  | None => zero
  | Some s => if String.eqb s "" then zero else parseFloat s
  end.

(** [st'] carries on from [st]: nothing visited is forgotten, the count
    has not gone down, and the items found come after the earlier ones. *)
Definition extends (st st' : walker) : Prop :=
  visited st ⊆ visited st' /\
  totalElementsCount st <= totalElementsCount st' /\
  exists new, found st' = found st ++ new.

(** [o[k]] for an element with children [ch]. *)
Definition child (ch : gmap string val) (k : string) : val :=
  default VUndef (ch !! k).

(** How many siblings a child entry stands for. *)
Definition siblings (h : heap) (v : val) : nat :=
  if truthy v then length (asArray h v) else 0.

(** The primitive elements directly under an element. *)
Definition primitiveCount (h : heap) (ch : gmap string val) : nat :=
  sum_list (List.map (fun type => siblings h (child ch type)) elementTypes).

(** A value the walker can be called on: a falsy one or an object. *)
Definition walkable (v : val) : Prop :=
  truthy v = false \/ exists l, v = VRef l.

(** A store in which every rect node has an attribute map and every
    group or nested document is an object (or a falsy value). *)
Definition wellFormed (h : heap) : Prop :=
  forall l a ch, h l = OElem a ch ->
    (truthy (child ch "rect") = true ->
     Forall (fun v => exists a', getAttrs h v = Ok (Some a'))
            (asArray h (child ch "rect"))) /\
    (truthy (child ch "g") = true ->
     Forall walkable (asArray h (child ch "g"))) /\
    (truthy (child ch "svg") = true ->
     Forall walkable (asArray h (child ch "svg"))).

(** ** Documents used as concrete inputs

    Each store is the value xml2js hands to the callback for the markup
    quoted above it; every location that is not listed holds an element
    without attributes or children. *)

Definition attrMap (l : list (string * string)) : gmap string string :=
  list_to_map l.

Definition element (a : option (list (string * string)))
    (c : list (string * val)) : obj :=
  OElem (attrMap <$> a) (list_to_map c).

Definition store (l : list obj) : heap :=
  fun i => default (OElem None ∅) (l !! i).

(** [<svg width="100" height="100"><rect x="90" y="90" width="20"
    height="20" fill="#f00"/></svg>], handed over as the root element
    itself. *)
Definition docOneRect : heap :=
  store [ element (Some [("width", "100"); ("height", "100")])
                  [("rect", VRef 1)];
          OArr [VRef 2];
          element (Some [("x", "90"); ("y", "90"); ("width", "20");
                         ("height", "20"); ("fill", "#f00")]) [] ].

(** [<svg width="200"/>] *)
Definition docWidthOnly : heap :=
  store [ element None [("svg", VRef 1)];
          element (Some [("width", "200")]) [] ].

(** [<svg width="abc" viewBox="0 0 50 60"/>] *)
Definition docBadWidth : heap :=
  store [ element None [("svg", VRef 1)];
          element (Some [("width", "abc"); ("viewBox", "0 0 50 60")]) [] ].

(** [<g><rect/></g>] *)
Definition docBareRect : heap :=
  store [ element None [("g", VRef 1)];
          element None [("rect", VRef 2)];
          OArr [VStr ""] ].

(** [<g><rect x="abc" width="10" height="10"/></g>] *)
Definition docBadX : heap :=
  store [ element None [("g", VRef 1)];
          element None [("rect", VRef 2)];
          OArr [VRef 3];
          element (Some [("x", "abc"); ("width", "10"); ("height", "10")])
                  [] ].

(** [<g><rect width="-10" height="10"/></g>] *)
Definition docNegativeWidth : heap :=
  store [ element None [("g", VRef 1)];
          element None [("rect", VRef 2)];
          OArr [VRef 3];
          element (Some [("width", "-10"); ("height", "10")]) [] ].

(** [<g><rect width="100" height="100"/></g>]: the rectangle covers the
    default 100 x 100 canvas exactly. *)
Definition docFullRect : heap :=
  store [ element None [("g", VRef 1)];
          element None [("rect", VRef 2)];
          OArr [VRef 3];
          element (Some [("width", "100"); ("height", "100")]) [] ].

(** [<g><g><svg width="500" height="500"><rect x="90" y="90" width="20"
    height="20"/></svg></g></g>]: a rectangle inside a nested document. *)
Definition docNested : heap :=
  store [ element None [("g", VRef 1)];
          element None [("g", VRef 2)];
          OArr [VRef 3];
          element None [("svg", VRef 4)];
          OArr [VRef 5];
          element (Some [("width", "500"); ("height", "500")])
                  [("rect", VRef 6)];
          OArr [VRef 7];
          element (Some [("x", "90"); ("y", "90"); ("width", "20");
                         ("height", "20")]) [] ].

(** A chain of groups that never ends: the group at [l] holds the group
    at [l + 1]. *)
Definition docEndless : heap :=
  fun l => OElem None {[ "g" := VRef (S l) ]}.

(** [<g><rect width="abc" height="10"/></g>] *)
Definition docBadRectWidth : heap :=
  store [ element None [("g", VRef 1)];
          element None [("rect", VRef 2)];
          OArr [VRef 3];
          element (Some [("width", "abc"); ("height", "10")]) [] ].

(** [<svg viewBox="0 0 -5 -5"/>] *)
Definition docNegativeViewBox : heap :=
  store [ element None [("svg", VRef 1)];
          element (Some [("viewBox", "0 0 -5 -5")]) [] ].

(** A root element handed over by itself, with an unbounded viewBox and
    an unbounded rectangle:
    [<svg viewBox="0 0 Infinity Infinity"><rect width="Infinity"
    height="1"/></svg>]. *)
Definition docUnbounded : heap :=
  store [ element (Some [("viewBox", "0 0 Infinity Infinity")])
                  [("rect", VRef 1)];
          OArr [VRef 2];
          element (Some [("width", "Infinity"); ("height", "1")]) [] ].

(** A group that is its own child, next to a circle. *)
Definition docCycle : heap :=
  store [ element None [("g", VRef 0); ("circle", VRef 1)];
          OArr [VStr ""] ].

(** [n] groups nested in one another around a single circle: the group
    at [l] holds the group at [l + 1], the innermost element, at [n], holds
    the circle. *)
Definition docChain (n : nat) : heap :=
  fun l =>
    if l <? n then OElem None {[ "g" := VRef (S l) ]}
    else if l =? n then OElem None {[ "circle" := VRef (S l) ]}
    else OArr [VStr ""].

(** [<svg width="100" height="100"><rect x="90" y="90" width="20"
    height="20" fill="#f00"/></svg>] as xml2js hands it over, under the
    name of its root element. *)
Definition docWrapped : heap :=
  store [ element None [("svg", VRef 1)];
          element (Some [("width", "100"); ("height", "100")])
                  [("rect", VRef 2)];
          OArr [VRef 3];
          element (Some [("x", "90"); ("y", "90"); ("width", "20");
                         ("height", "20"); ("fill", "#f00")]) [] ].

(** [<g><circle/><rect width="10" height="10"/><rect x="5"/><text>a</text>
    </g>] as the root element itself. *)
Definition docFlat : heap :=
  store [ element None [("circle", VRef 1); ("rect", VRef 2);
                        ("text", VRef 5)];
          OArr [VStr ""];
          OArr [VRef 3; VRef 4];
          element (Some [("width", "10"); ("height", "10")]) [];
          element (Some [("x", "5")]) [];
          OArr [VStr "a"] ].

(** [<svg width="abc" viewBox="0 0 50"/>]: no dimension can be read. *)
Definition docNoDimensions : heap :=
  store [ element None [("svg", VRef 1)];
          element (Some [("width", "abc"); ("viewBox", "0 0 50")]) [] ].

(** [<g><g>hello</g></g>]: the inner group is a text node. *)
Definition docTextGroup : heap :=
  store [ element None [("g", VRef 1)];
          element None [("g", VRef 2)];
          OArr [VStr "hello"] ].

(** * Properties *)

(** ** The model on concrete inputs *)

Example parseFloat_integer : parseFloat "100" = ofZ 100.
Proof. vm_compute; reflexivity. Qed.

Example parseFloat_tenth :
  parseFloat "0.1" = S754_finite false 7205759403792794 (-56).
Proof. vm_compute; reflexivity. Qed.

Example parseFloat_prefix : parseFloat "  5.5.5px" = parseFloat "5.5".
Proof. vm_compute; reflexivity. Qed.

Example parseFloat_exponent : parseFloat "-.5E+1x" = ofZ (-5).
Proof. vm_compute; reflexivity. Qed.

Example parseFloat_overflow : parseFloat "1e400" = S754_infinity false.
Proof. vm_compute; reflexivity. Qed.

Example parseFloat_ties_to_even :
  parseFloat "9007199254740993" = ofZ 9007199254740992.
Proof. vm_compute; reflexivity. Qed.

Example parseFloat_letters : parseFloat "abc" = NaN.
Proof. vm_compute; reflexivity. Qed.

Example parseFloat_empty : parseFloat "" = NaN.
Proof. vm_compute; reflexivity. Qed.

Example keepDigitsAndDots_px : keepDigitsAndDots "-200.5px" = "200.5".
Proof. vm_compute; reflexivity. Qed.

Example splitSep_viewBox :
  splitSep " 0 0,, 50 60 " = [""; "0"; "0"; "50"; "60"; ""].
Proof. vm_compute; reflexivity. Qed.

(** The scenario of one rectangle reaching over the canvas: the item is
    out of bounds, the ratio is 400 / 10000. *)
Example parseTree_docOneRect :
  parseTree docOneRect (VRef 0)
  = Ok {| svgWidth := ofZ 100; svgHeight := ofZ 100;
          items := [ {| x := ofZ 90; y := ofZ 90;
                        width := ofZ 20; height := ofZ 20;
                        fill := "#f00"; issue := Some OUT_OF_BOUNDS |} ];
          itemsCount := 1;
          coverageRatio := parseFloat "0.04";
          issues := [OUT_OF_BOUNDS] |}.
Proof. vm_compute; reflexivity. Qed.

(** A cycle is walked once: the circle is counted, nothing else. *)
Example parseTree_docCycle :
  parseTree docCycle (VRef 0)
  = Ok {| svgWidth := ofZ 100; svgHeight := ofZ 100; items := [];
          itemsCount := 1; coverageRatio := zero; issues := [] |}.
Proof. vm_compute; reflexivity. Qed.

(** ** The error monad and [forEach] *)

Lemma bind_Ok {A B} (m : res A) (k : A -> res B) (b : B) :
  m ≫= k = Ok b -> exists a, m = Ok a /\ k a = Ok b.
Proof. destruct m; simpl; intros E; try discriminate. by exists a. Qed.

Lemma bind_fuel {A B} (m : res A) (k : A -> res B) :
  m <> OutOfFuel -> (forall a, k a <> OutOfFuel) -> m ≫= k <> OutOfFuel.
Proof. destruct m; simpl; auto. Qed.

Lemma bind_ext {A B} (m : res A) (k k' : A -> res B) :
  (forall a, k a = k' a) -> m ≫= k = m ≫= k'.
Proof. destruct m; simpl; auto. Qed.

(** Splitting conjunctions only, then evaluating each part. *)
Ltac conjs := repeat match goal with |- _ /\ _ => split end.
Ltac run := conjs; vm_compute; reflexivity.

Ltac inv_bind H :=
  let a := fresh "a" in
  let E := fresh "E" in
  apply bind_Ok in H as (a & E & H).

Section ForEach.
Context {A S : Type}.
Variable f : A -> S -> res S.

Lemma forEach_invariant (P : S -> Prop) :
  (forall a st st', P st -> f a st = Ok st' -> P st') ->
  forall l st st', P st -> forEach f l st = Ok st' -> P st'.
Proof.
  intros Hf l; induction l as [|a l IH]; simpl; intros st st' HP E.
  - by inversion E; subst.
  - inv_bind E. eauto.
Qed.

Lemma forEach_fuel :
  (forall a st, f a st <> OutOfFuel) ->
  forall l st, forEach f l st <> OutOfFuel.
Proof.
  intros Hf l; induction l as [|a l IH]; simpl; intros st; [done|].
  apply bind_fuel; auto.
Qed.

Lemma forEach_ext (g : A -> S -> res S) :
  (forall a st, f a st = g a st) ->
  forall l st, forEach f l st = forEach g l st.
Proof.
  intros Hfg l; induction l as [|a l IH]; simpl; intros st; [done|].
  rewrite Hfg. destruct (g a st); simpl; auto.
Qed.
End ForEach.

(** ** What one node contributes *)

Section Local.
Variable h : heap.
Variables cw ch : number.

Lemma extractRect_Ok rect st st' :
  extractRect h cw ch rect st = Ok st' ->
  exists a, getAttrs h rect = Ok (Some a) /\
            visited st' = visited st /\
            totalElementsCount st' = totalElementsCount st /\
            found st' = found st ++ [rectItem cw ch a].
Proof.
  unfold extractRect. intros E. inv_bind E.
  destruct a as [a|]; [|discriminate].
  inversion E; subst; simpl. by exists a.
Qed.

Lemma extractRect_fuel rect st : extractRect h cw ch rect st <> OutOfFuel.
Proof.
  unfold extractRect. destruct (getAttrs h rect) as [[a|]| |] eqn:E;
    simpl; try done.
  destruct rect as [| |l]; simpl in E; try done.
  destruct (h l); done.
Qed.

Lemma forEach_extractRect_Ok rects st st' :
  forEach (extractRect h cw ch) rects st = Ok st' ->
  visited st' = visited st /\
  totalElementsCount st' = totalElementsCount st /\
  exists new, found st' = found st ++ new /\
              length new = length rects /\
              Forall (fun item => exists a, item = rectItem cw ch a) new.
Proof.
  revert st; induction rects as [|r rects IH]; simpl; intros st E.
  - inversion E; subst. repeat split; trivial.
    exists []. by rewrite app_nil_r.
  - inv_bind E. apply extractRect_Ok in E0 as (a0 & _ & Hv & Hc & Hf).
    apply IH in E as (Hv' & Hc' & new & Hf' & Hlen & Hall).
    repeat split; try congruence.
    exists (rectItem cw ch a0 :: new). rewrite Hf', Hf, <- app_assoc. simpl.
    repeat split; eauto.
Qed.

Lemma getProp_fuel v k : getProp h v k <> OutOfFuel.
Proof. destruct v as [| |l]; simpl; try done. destruct (h l); done. Qed.

Lemma countType_Ok el st type st' :
  countType h el st type = Ok st' ->
  exists v, getProp h el type = Ok v /\
            visited st' = visited st /\
            found st' = found st /\
            totalElementsCount st' =
              totalElementsCount st
              + (if truthy v then length (asArray h v) else 0).
Proof.
  unfold countType. intros E. inv_bind E. exists a.
  inversion E; subst. destruct (truthy a); simpl; repeat split; trivial; lia.
Qed.

Lemma countTypes_Ok el types st st' :
  countTypes h el types st = Ok st' ->
  visited st' = visited st /\
  found st' = found st /\
  totalElementsCount st <= totalElementsCount st'.
Proof.
  revert st; induction types as [|t types IH]; simpl; intros st E.
  - by inversion E.
  - inv_bind E. apply countType_Ok in E0 as (v & _ & Hv & Hf & Hc).
    apply IH in E as (Hv' & Hf' & Hc').
    repeat split; try congruence. lia.
Qed.

Lemma countTypes_fuel el types st : countTypes h el types st <> OutOfFuel.
Proof.
  revert st; induction types as [|t types IH]; simpl; intros st; [done|].
  apply bind_fuel; [|auto].
  unfold countType. apply bind_fuel; [apply getProp_fuel|done].
Qed.

(** The rectangles of a node are counted before they are extracted. *)
Lemma countTypes_rect el st st' rect :
  countTypes h el elementTypes st = Ok st' ->
  getProp h el "rect" = Ok rect ->
  totalElementsCount st
  + (if truthy rect then length (asArray h rect) else 0)
  <= totalElementsCount st'.
Proof.
  unfold elementTypes. intros E Hr.
  change (countType h el st "rect"
          ≫= (fun s => countTypes h el
                         ["path"; "circle"; "ellipse"; "polygon";
                          "polyline"; "line"; "text"; "use"; "image"] s)
          = Ok st') in E.
  inv_bind E.
  apply countType_Ok in E0 as (v & Hv & _ & _ & Hc).
  rewrite Hr in Hv. inversion Hv; subst v.
  apply countTypes_Ok in E as (_ & _ & Hle). lia.
Qed.
End Local.

(** ** One call of [extractAllElements] *)

Lemma extractAllElements_S h cw ch fuel element depth st :
  extractAllElements h cw ch (S fuel) element depth st =
  if negb (truthy element) || (MAX_RECURSION_DEPTH <? depth) then Ok st
  else
    match element with
    | VRef l =>
        if bool_decide (l ∈ visited st) then Ok st
        else
          st ← countTypes h element elementTypes
                 {| visited := {[l]} ∪ visited st;
                    totalElementsCount := totalElementsCount st;
                    found := found st |};
          rect ← getProp h element "rect";
          st ← (if truthy rect
                then forEach (extractRect h cw ch) (asArray h rect) st
                else Ok st);
          g ← getProp h element "g";
          st ← (if truthy g
                then forEach
                       (fun group =>
                          extractAllElements h cw ch fuel group (S depth))
                       (asArray h g) st
                else Ok st);
          svg ← getProp h element "svg";
          if truthy svg && (0 <? depth)
          then forEach
                 (fun svg => extractAllElements h cw ch fuel svg (S depth))
                 (asArray h svg) st
          else Ok st
    | _ => Throw
    end.
Proof. reflexivity. Qed.

(** ** Invariants of the walk

    A property of the accumulators that survives what a single node
    contributes (marking it visited, counting its primitives, extracting
    its rectangles) survives the whole traversal. *)

Section WalkInvariant.
Variable h : heap.
Variables cw ch : number.
Variable P : walker -> Prop.

Hypothesis P_node : forall l st st1 rect st2,
  P st ->
  countTypes h (VRef l) elementTypes
    {| visited := {[l]} ∪ visited st;
       totalElementsCount := totalElementsCount st;
       found := found st |} = Ok st1 ->
  getProp h (VRef l) "rect" = Ok rect ->
  (if truthy rect
   then forEach (extractRect h cw ch) (asArray h rect) st1
   else Ok st1) = Ok st2 ->
  P st2.

Lemma extractAllElements_invariant fuel :
  forall element depth st st',
    P st ->
    extractAllElements h cw ch fuel element depth st = Ok st' ->
    P st'.
Proof.
  induction fuel as [|fuel IH]; intros element depth st st' HP E;
    [discriminate|].
  rewrite extractAllElements_S in E.
  destruct (negb (truthy element) || (MAX_RECURSION_DEPTH <? depth));
    [congruence|].
  destruct element as [| |l]; try discriminate.
  destruct (bool_decide (l ∈ visited st)); [congruence|].
  inv_bind E. rename a into st1, E0 into Hcount.
  inv_bind E. rename a into rect, E0 into Hrect.
  inv_bind E. rename a into st2, E0 into Hrects.
  pose proof (P_node _ _ _ _ _ HP Hcount Hrect Hrects) as HP2.
  inv_bind E. rename a into g, E0 into Hg.
  inv_bind E. rename a into st3, E0 into Hgroups.
  assert (HP3 : P st3).
  { destruct (truthy g); [|congruence].
    eapply forEach_invariant; [|exact HP2|exact Hgroups].
    intros v s s' Hs Es. exact (IH _ _ _ _ Hs Es). }
  inv_bind E. rename a into svg, E0 into Hsvg.
  destruct (truthy svg && (0 <? depth)); [|congruence].
  eapply forEach_invariant; [|exact HP3|exact E].
  intros v s s' Hs Es. exact (IH _ _ _ _ Hs Es).
Qed.
End WalkInvariant.

(** ** Termination of the walk *)

Section WalkFuel.
Variable h : heap.
Variables cw ch : number.

Lemma extractAllElements_fuel fuel :
  forall element depth st,
    MAX_RECURSION_DEPTH + 1 - depth < fuel ->
    extractAllElements h cw ch fuel element depth st <> OutOfFuel.
Proof.
  induction fuel as [|fuel IH]; intros element depth st Hlt; [lia|].
  rewrite extractAllElements_S.
  destruct (MAX_RECURSION_DEPTH <? depth) eqn:Hd;
    [by rewrite orb_true_r|].
  apply Nat.ltb_ge in Hd.
  assert (Hrec : forall v s,
             extractAllElements h cw ch fuel v (S depth) s <> OutOfFuel)
    by (intros; apply IH; lia).
  rewrite orb_false_r. destruct (negb (truthy element)); [done|].
  destruct element as [| |l]; try done.
  destruct (bool_decide (l ∈ visited st)); [done|].
  apply bind_fuel; [apply countTypes_fuel|intros st1].
  apply bind_fuel; [apply getProp_fuel|intros rect].
  apply bind_fuel; [|intros st2].
  { destruct (truthy rect); [|done].
    apply forEach_fuel, extractRect_fuel. }
  apply bind_fuel; [apply getProp_fuel|intros g].
  apply bind_fuel; [|intros st3].
  { destruct (truthy g); [|done]. by apply forEach_fuel. }
  apply bind_fuel; [apply getProp_fuel|intros svg].
  destruct (truthy svg && (0 <? depth)); [|done].
  by apply forEach_fuel.
Qed.

(** Past the bound, more fuel changes nothing. *)
Lemma extractAllElements_more_fuel fuel :
  forall element depth st,
    MAX_RECURSION_DEPTH + 1 - depth < fuel ->
    extractAllElements h cw ch (S fuel) element depth st
    = extractAllElements h cw ch fuel element depth st.
Proof.
  induction fuel as [|fuel IH]; intros element depth st Hlt; [lia|].
  rewrite (extractAllElements_S h cw ch (S fuel)), (extractAllElements_S h cw ch fuel).
  destruct (MAX_RECURSION_DEPTH <? depth) eqn:Hd;
    [by rewrite orb_true_r|].
  apply Nat.ltb_ge in Hd.
  assert (Hrec : forall l s,
             forEach (fun v => extractAllElements h cw ch (S fuel) v
                                 (S depth)) l s
             = forEach (fun v => extractAllElements h cw ch fuel v
                                   (S depth)) l s).
  { intros. apply forEach_ext. intros. apply IH. lia. }
  rewrite orb_false_r. destruct (negb (truthy element)); [done|].
  destruct element as [| |l]; try done.
  destruct (bool_decide (l ∈ visited st)); [done|].
  apply bind_ext; intros st1. apply bind_ext; intros rect.
  apply bind_ext; intros st2. apply bind_ext; intros g.
  rewrite Hrec. apply bind_ext; intros st3. apply bind_ext; intros svg.
  by rewrite Hrec.
Qed.

Lemma extractAllElements_enough_fuel fuel element st :
  walkFuel <= fuel ->
  extractAllElements h cw ch fuel element 0 st
  = extractAllElements h cw ch walkFuel element 0 st.
Proof.
  induction 1 as [|fuel Hle IH]; [done|].
  rewrite <- IH. apply extractAllElements_more_fuel.
  unfold walkFuel in Hle. lia.
Qed.
End WalkFuel.

(** ** Comparisons of numbers *)

Lemma eq_not_gt (a b : number) : Num.eq a b = true -> gt a b = false.
Proof.
  unfold Num.eq, gt, SFeqb, SFltb, SFcompare.
  destruct a as [sa|sa| |sa ma ea], b as [sb|sb| |sb mb eb];
    try destruct sa; try destruct sb; try done.
  - destruct (Z.compare ea eb) eqn:He; try done.
    apply Z.compare_eq in He; subst eb. rewrite Z.compare_refl.
    change (Pos.compare_cont Eq ma mb) with (Pos.compare ma mb).
    change (Pos.compare_cont Eq mb ma) with (Pos.compare mb ma).
    destruct (Pos.compare ma mb) eqn:Hm; try done.
    apply Pos.compare_eq in Hm; subst mb. by rewrite Pos.compare_refl.
  - destruct (Z.compare ea eb) eqn:He; try done.
    apply Z.compare_eq in He; subst eb. rewrite Z.compare_refl.
    change (Pos.compare_cont Eq ma mb) with (Pos.compare ma mb).
    change (Pos.compare_cont Eq mb ma) with (Pos.compare mb ma).
    destruct (Pos.compare ma mb) eqn:Hm; try done.
    apply Pos.compare_eq in Hm; subst mb. by rewrite Pos.compare_refl.
Qed.

Lemma eq_zero_not_lt (a : number) : Num.eq a zero = true -> lt a zero = false.
Proof. destruct a as [sa|sa| |sa ma ea]; try destruct sa; done. Qed.

(** ** The result of a successful parse *)

Lemma parseTree_Ok h result r :
  parseTree h result = Ok r ->
  exists st,
    resolveDimensions h result = Ok (svgWidth r, svgHeight r) /\
    extractAllElements h (svgWidth r) (svgHeight r) walkFuel result 0 initial
      = Ok st /\
    items r = found st /\
    itemsCount r = totalElementsCount st /\
    issues r =
      (if totalElementsCount st =? 0 then [EMPTY] else [])
      ++ (if hasOutOfBounds (found st) then [OUT_OF_BOUNDS] else []) /\
    coverageRatio r =
      if gt (mul (svgWidth r) (svgHeight r)) zero
      then div (totalRectArea (found st)) (mul (svgWidth r) (svgHeight r))
      else zero.
Proof.
  unfold parseTree. intros E. inv_bind E. destruct a as [w hh].
  inv_bind E. rename a into st. injection E as <-.
  exists st. cbn [svgWidth svgHeight items itemsCount issues coverageRatio].
  repeat split; trivial.
Qed.

(** Rectangles never outnumber the primitives counted. *)
Lemma walk_count_ge_found h cw ch fuel element depth st st' :
  length (found st) <= totalElementsCount st ->
  extractAllElements h cw ch fuel element depth st = Ok st' ->
  length (found st') <= totalElementsCount st'.
Proof.
  apply (extractAllElements_invariant h cw ch
           (fun s => length (found s) <= totalElementsCount s)).
  clear. intros l st st1 rect st2 HP Hcount Hrect Hrects.
  pose proof (countTypes_rect _ _ _ _ _ Hcount Hrect) as Hle.
  apply countTypes_Ok in Hcount as (_ & Hf & _). simpl in *.
  destruct (truthy rect).
  - apply forEach_extractRect_Ok in Hrects
      as (_ & Hc & new & Hf' & Hlen & _).
    rewrite Hf', Hc, length_app, Hlen, Hf. lia.
  - inversion Hrects; subst st2. rewrite Hf. lia.
Qed.

(** Every item found was built by [extractRect] against the canvas the
    walk was started with. *)
Lemma walk_found_rectItem h cw ch fuel element depth st st' :
  Forall (fun item => exists a, item = rectItem cw ch a) (found st) ->
  extractAllElements h cw ch fuel element depth st = Ok st' ->
  Forall (fun item => exists a, item = rectItem cw ch a) (found st').
Proof.
  apply (extractAllElements_invariant h cw ch
           (fun s => Forall (fun item => exists a, item = rectItem cw ch a)
                       (found s))).
  clear. intros l st st1 rect st2 HP Hcount Hrect Hrects.
  apply countTypes_Ok in Hcount as (_ & Hf & _). simpl in *.
  destruct (truthy rect).
  - apply forEach_extractRect_Ok in Hrects as (_ & _ & new & Hf' & _ & Hall).
    rewrite Hf', Hf. by apply Forall_app.
  - inversion Hrects; subst st2. by rewrite Hf.
Qed.

Lemma parseTree_items h result r item :
  parseTree h result = Ok r ->
  item ∈ items r ->
  exists a, item = rectItem (svgWidth r) (svgHeight r) a.
Proof.
  intros (st & _ & Hwalk & Hitems & _)%parseTree_Ok Hin.
  apply walk_found_rectItem in Hwalk; [|by constructor].
  rewrite Hitems in Hin. rewrite Forall_forall in Hwalk. auto.
Qed.

Lemma resolveDimensions_fuel h result : resolveDimensions h result <> OutOfFuel.
Proof.
  unfold resolveDimensions.
  apply bind_fuel; [apply getProp_fuel|intros svg].
  apply bind_fuel; [|done].
  destruct (if truthy svg then svg else result) as [| |l]; simpl; try done.
  destruct (h l); done.
Qed.

(** * The claims *)

(** ** C6 *)

(** C6: every rectangle of a successful parse, wherever in the tree it was
    found, carries OUT_OF_BOUNDS exactly when [x < 0], [y < 0],
    [x + width > svgWidth] or [y + height > svgHeight] holds against the
    size returned for the document, and carries no issue otherwise. *)
Theorem out_of_bounds_classification h result r item :
  parseTree h result = Ok r ->
  item ∈ items r ->
  (issue item = Some OUT_OF_BOUNDS <->
     lt (x item) zero = true \/
     lt (y item) zero = true \/
     gt (add (x item) (width item)) (svgWidth r) = true \/
     gt (add (y item) (height item)) (svgHeight r) = true)
  /\ (issue item = Some OUT_OF_BOUNDS \/ issue item = None).
Proof.
  intros Hp Hin. destruct (parseTree_items _ _ _ _ Hp Hin) as (a & ->).
  unfold rectItem, isOutOfBounds; simpl.
  destruct (lt _ zero) eqn:H1, (lt (parseFloat (attrOr a "y" "0")) zero)
    eqn:H2, (gt _ (svgWidth r)) eqn:H3, (gt _ (svgHeight r)) eqn:H4;
    simpl; split; try (by left); try (by right); split; intros H;
    try done; try (by left); try (by right; left);
    try (by right; right; left); try (by right; right; right).
  by destruct H as [?|[?|[?|?]]].
Qed.

Lemma out_of_bounds_classification_witness :
  exists r item,
    parseTree docNested (VRef 0) = Ok r /\ items r = [item] /\
    svgWidth r = ofZ 100 /\
    issue item = Some OUT_OF_BOUNDS /\
    gt (add (x item) (width item)) (svgWidth r) = true.
Proof.
  eexists _, _. split; [vm_compute; reflexivity|].
  split; [reflexivity|]. split; [vm_compute; reflexivity|].
  split; [|vm_compute; reflexivity].
  eapply (out_of_bounds_classification docNested (VRef 0)).
  - vm_compute; reflexivity.
  - apply list_elem_of_singleton. reflexivity.
  - right; right; left. vm_compute; reflexivity.
Defined.

(** ** C7 *)

(** C7: the traversal terminates on every store of objects, shared and
    cyclic references included: the walk started by the parser never runs
    out of fuel, nor does any walk from depth 0 given at least that much;
    and more fuel gives the very same outcome; a call past depth 100
    returns at once with the accumulators untouched, and so does a call on
    a node that is already in the visited set. *)
Theorem traversal_terminates h cw ch element st :
  parseTree h element <> OutOfFuel
  /\ (forall fuel, walkFuel <= fuel ->
        extractAllElements h cw ch fuel element 0 st <> OutOfFuel /\
        extractAllElements h cw ch fuel element 0 st
        = extractAllElements h cw ch walkFuel element 0 st)
  /\ (forall fuel depth, MAX_RECURSION_DEPTH < depth ->
        extractAllElements h cw ch (S fuel) element depth st = Ok st)
  /\ (forall fuel depth l, element = VRef l -> l ∈ visited st ->
        extractAllElements h cw ch (S fuel) element depth st = Ok st).
Proof.
  repeat split.
  - unfold parseTree.
    apply bind_fuel; [apply resolveDimensions_fuel|intros d].
    apply bind_fuel; [|done].
    apply extractAllElements_fuel. unfold walkFuel. lia.
  - apply extractAllElements_fuel. unfold walkFuel in *. lia.
  - by apply extractAllElements_enough_fuel.
  - intros fuel depth Hd. rewrite extractAllElements_S.
    apply Nat.ltb_lt in Hd. by rewrite Hd, orb_true_r.
  - intros fuel depth l -> Hl. rewrite extractAllElements_S.
    destruct (negb (truthy (VRef l)) || (MAX_RECURSION_DEPTH <? depth));
      [done|].
    by rewrite bool_decide_eq_true_2.
Qed.

Lemma traversal_terminates_witness :
  parseTree docCycle (VRef 0) <> OutOfFuel
  /\ parseTree docEndless (VRef 0) <> OutOfFuel
  /\ extractAllElements docCycle zero zero 200 (VRef 0) 0 initial <> OutOfFuel
  /\ extractAllElements docCycle zero zero 1 (VRef 0) 101 initial = Ok initial
  /\ extractAllElements docCycle zero zero 1 (VRef 0) 0
       {| visited := {[0]}; totalElementsCount := 0; found := [] |}
     = Ok {| visited := {[0]}; totalElementsCount := 0; found := [] |}.
Proof.
  split; [apply (traversal_terminates docCycle zero zero (VRef 0) initial)|].
  split; [apply (traversal_terminates docEndless zero zero (VRef 0) initial)|].
  split.
  { apply (traversal_terminates docCycle zero zero (VRef 0) initial).
    unfold walkFuel, MAX_RECURSION_DEPTH. lia. }
  split.
  { apply (traversal_terminates docCycle zero zero (VRef 0) initial).
    unfold MAX_RECURSION_DEPTH. lia. }
  eapply (traversal_terminates docCycle zero zero (VRef 0)).
  - reflexivity.
  - simpl. apply elem_of_singleton. reflexivity.
Defined.

(** ** C8 *)

(** C8: in every result, [itemsCount] (the total of primitive elements)
    is at least the number of rectangle items. *)
Theorem count_ge_items h result r :
  parseTree h result = Ok r ->
  length (items r) <= itemsCount r.
Proof.
  intros (st & _ & Hwalk & -> & -> & _)%parseTree_Ok.
  eapply walk_count_ge_found; [|exact Hwalk]. simpl. lia.
Qed.

Lemma count_ge_items_witness :
  exists r, parseTree docOneRect (VRef 0) = Ok r /\
            length (items r) <= itemsCount r.
Proof.
  eexists. split; [vm_compute; reflexivity|].
  apply (count_ge_items docOneRect (VRef 0)). vm_compute; reflexivity.
Defined.

(** ** C9 *)

(** C9: the issues of a result never hold both EMPTY and OUT_OF_BOUNDS. *)
Theorem empty_excludes_out_of_bounds h result r :
  parseTree h result = Ok r ->
  ~ (EMPTY ∈ issues r /\ OUT_OF_BOUNDS ∈ issues r).
Proof.
  intros (st & _ & Hwalk & _ & _ & -> & _)%parseTree_Ok [He Ho].
  apply walk_count_ge_found in Hwalk; [|simpl; lia].
  destruct (totalElementsCount st =? 0) eqn:Hz.
  - apply Nat.eqb_eq in Hz. rewrite Hz in Hwalk.
    destruct (found st) as [|i l]; [|simpl in Hwalk; lia].
    simpl in Ho. apply list_elem_of_singleton in Ho. discriminate.
  - simpl in He. destruct (hasOutOfBounds (found st)).
    + apply list_elem_of_singleton in He. discriminate.
    + by apply elem_of_nil in He.
Qed.

Lemma empty_excludes_out_of_bounds_witness :
  exists r, parseTree docWidthOnly (VRef 0) = Ok r /\
            EMPTY ∈ issues r /\
            ~ (EMPTY ∈ issues r /\ OUT_OF_BOUNDS ∈ issues r).
Proof.
  eexists. split; [vm_compute; reflexivity|].
  split; [apply list_elem_of_singleton; reflexivity|].
  apply (empty_excludes_out_of_bounds docWidthOnly (VRef 0)).
  vm_compute; reflexivity.
Defined.

(** ** C10 *)

(** C10: a rectangle of a result with [x === 0], [y === 0],
    [x + width === svgWidth] and [y + height === svgHeight] carries no
    issue: the comparisons of the bounds test are strict. *)
Theorem boundary_rect_in_bounds h result r item :
  parseTree h result = Ok r ->
  item ∈ items r ->
  Num.eq (x item) zero = true ->
  Num.eq (y item) zero = true ->
  Num.eq (add (x item) (width item)) (svgWidth r) = true ->
  Num.eq (add (y item) (height item)) (svgHeight r) = true ->
  issue item = None.
Proof.
  intros Hp Hin. destruct (parseTree_items _ _ _ _ Hp Hin) as (a & ->).
  unfold rectItem, isOutOfBounds; simpl. intros Hx Hy Hw Hh.
  by rewrite (eq_zero_not_lt _ Hx), (eq_zero_not_lt _ Hy),
       (eq_not_gt _ _ Hw), (eq_not_gt _ _ Hh).
Qed.

Lemma boundary_rect_in_bounds_witness :
  exists r item,
    parseTree docFullRect (VRef 0) = Ok r /\ items r = [item] /\
    svgWidth r = ofZ 100 /\ width item = ofZ 100 /\
    issue item = None.
Proof.
  eexists _, _. split; [vm_compute; reflexivity|].
  split; [reflexivity|]. split; [vm_compute; reflexivity|].
  split; [vm_compute; reflexivity|].
  eapply (boundary_rect_in_bounds docFullRect (VRef 0)).
  - vm_compute; reflexivity.
  - apply list_elem_of_singleton. reflexivity.
  - vm_compute; reflexivity.
  - vm_compute; reflexivity.
  - vm_compute; reflexivity.
  - vm_compute; reflexivity.
Defined.

(** ** Signs of rounded results

    Rounding a non-negative mantissa never yields NaN and keeps the sign
    it is given; sums, products and quotients of non-negative numbers are
    therefore non-negative. *)

Section Signs.
Variables prec emax : Z.

Lemma iter_pos_invariant {A} (P : A -> Prop) (f : A -> A) :
  (forall a, P a -> P (f a)) ->
  forall p a, P a -> P (SpecFloat.iter_pos f p a).
Proof.
  intros Hf p; induction p as [p IH|p IH|]; simpl; intros a Ha; auto.
Qed.

Lemma shr_1_nonneg mrs : (0 <= shr_m mrs)%Z -> (0 <= shr_m (shr_1 mrs))%Z.
Proof.
  destruct mrs as [m r s]; simpl.
  destruct m as [|[p|p|]|[p|p|]]; simpl; lia.
Qed.

Lemma shr_fexp_nonneg m e l :
  (0 <= m)%Z -> (0 <= shr_m (shr_fexp prec emax m e l).1)%Z.
Proof.
  intros Hm. unfold shr_fexp, shr.
  assert (H0 : (0 <= shr_m (shr_record_of_loc m l))%Z)
    by (by destruct l as [|[| |]]).
  destruct (_ - e)%Z as [|p|p]; simpl; trivial.
  by apply iter_pos_invariant; [apply shr_1_nonneg|].
Qed.

Lemma round_nearest_even_nonneg m l :
  (0 <= m)%Z -> (0 <= round_nearest_even m l)%Z.
Proof.
  intros Hm. destruct l as [|[| |]]; simpl; try lia.
  destruct (Z.even m); lia.
Qed.

Lemma binary_round_aux_signed s m e l :
  (0 <= m)%Z -> signed s (binary_round_aux prec emax s m e l).
Proof.
  intros Hm. unfold binary_round_aux.
  pose proof (shr_fexp_nonneg m e l Hm) as H1.
  destruct (shr_fexp prec emax m e l) as [mrs' e']. simpl in H1.
  pose proof (shr_fexp_nonneg _ e' loc_Exact
                (round_nearest_even_nonneg _ (loc_of_shr_record mrs') H1))
    as H2.
  destruct (shr_fexp prec emax _ e' loc_Exact) as [mrs'' e''].
  simpl in H2. destruct (shr_m mrs'') as [|p|p]; simpl; [done| |lia].
  by destruct (_ <=? _)%Z.
Qed.

Lemma binary_round_signed s m e : signed s (binary_round prec emax s m e).
Proof.
  unfold binary_round. destruct (shl_align _ _ _) as [mz ez].
  by apply binary_round_aux_signed.
Qed.
End Signs.

(** [0 <= a]: a zero of either sign, a positive number or +Infinity. *)
Lemma le_zero_iff (a : number) :
  le zero a = true <->
  match a with
  | S754_zero _ => True
  | S754_infinity s | S754_finite s _ _ => s = false
  | S754_nan => False
  end.
Proof. destruct a as [s|s| |s m e]; try destruct s; by compute. Qed.

Lemma add_nonneg (a b : number) :
  le zero a = true -> le zero b = true -> le zero (add a b) = true.
Proof.
  rewrite !le_zero_iff.
  destruct a as [[]|[]| |[] ma ea], b as [[]|[]| |[] mb eb];
    intros Ha Hb; try done.
  unfold add, SFadd, cond_Zopp.
  destruct (shl_align ma ea _) as [ma' ?], (shl_align mb eb _) as [mb' ?].
  simpl.
  pose proof (binary_round_signed prec emax false (ma' + mb') (Z.min ea eb))
    as H.
  by destruct (binary_round _ _ _ _ _).
Qed.

Lemma mul_nonneg (a b : number) :
  isFinite a = true -> isFinite b = true ->
  le zero a = true -> le zero b = true -> le zero (mul a b) = true.
Proof.
  rewrite !le_zero_iff.
  destruct a as [[]|[]| |[] ma ea], b as [[]|[]| |[] mb eb];
    intros Fa Fb Ha Hb; try done.
  unfold mul, SFmul; simpl.
  pose proof (binary_round_aux_signed prec emax false (Z.pos (ma * mb))
                (ea + eb) loc_Exact ltac:(lia)) as H.
  by destruct (binary_round_aux _ _ _ _ _ _).
Qed.

Lemma div_nonneg (a b : number) :
  le zero a = true -> gt b zero = true -> isFinite b = true ->
  le zero (div a b) = true.
Proof.
  rewrite !le_zero_iff.
  destruct a as [[]|[]| |[] ma ea], b as [[]|[]| |[] mb eb];
    intros Ha Hb Fb; try done.
  unfold div, SFdiv, SFdiv_core_binary.
  set (s := (ea - eb - _)%Z).
  set (m' := match s with
             | Z0 => Z.pos ma | Z.pos _ => Z.shiftl (Z.pos ma) s
             | Z.neg _ => 0%Z end).
  assert (Hm' : (0 <= m')%Z).
  { subst m'. destruct s; try lia. by apply Z.shiftl_nonneg. }
  pose proof (Z.div_pos m' (Z.pos mb) Hm' ltac:(lia)) as Hq.
  unfold Z.div in Hq. destruct (Z.div_eucl m' (Z.pos mb)) as [q r].
  simpl in Hq.
  pose proof (binary_round_aux_signed prec emax false q
                (Z.min (fexp prec emax
                          (Zdigits2 (Z.pos ma) + ea
                           - (Zdigits2 (Z.pos mb) + eb))) (ea - eb))
                (new_location (Z.pos mb) r) Hq) as H.
  by destruct (binary_round_aux _ _ _ _ _ _).
Qed.

Lemma totalRectArea_nonneg (l : list IDesignItem) :
  Forall properRect l -> le zero (totalRectArea l) = true.
Proof.
  unfold totalRectArea.
  assert (H : forall acc, le zero acc = true -> Forall properRect l ->
              le zero (foldl (fun sum item =>
                                add sum (mul (width item) (height item)))
                         acc l) = true); [|by apply H].
  induction l as [|item l IH]; simpl; intros acc Hacc Hall; [done|].
  inversion Hall as [|? ? (Fw & Fh & Hw & Hh) Hall']; subst.
  apply IH; [|done]. apply add_nonneg; [done|]. by apply mul_nonneg.
Qed.

Lemma parseViewBox_not_NaN s : Forall (fun n => isNaN n = false) (parseViewBox s).
Proof.
  unfold parseViewBox. apply Forall_forall. intros n Hn.
  apply list_elem_of_In, filter_In in Hn as [_ Hn].
  by destruct (isNaN n).
Qed.

(** ** C1 *)

(** C1, as stated, fails: for [<svg width="200"/>] the width resolves to
    200 and the height stays 0, which is not positive. *)
Lemma canvas_positive_counterexample :
  exists r, parseTree docWidthOnly (VRef 0) = Ok r /\
            svgWidth r = ofZ 200 /\
            svgHeight r = zero /\
            gt (svgHeight r) zero = false.
Proof. eexists. run. Qed.

(** Nor are both dimensions positive whenever both resolve: the numbers of
    a viewBox are taken as they are. *)
Example negative_viewBox :
  exists r, parseTree docNegativeViewBox (VRef 0) = Ok r /\
            svgWidth r = ofZ (-5) /\ svgHeight r = ofZ (-5).
Proof. eexists. run. Qed.

(** C1, amended: in every result the canvas width and height are never
    both unresolved (0 or NaN): at least one of them is a non-zero
    number. *)
Theorem canvas_not_both_unresolved h result r :
  parseTree h result = Ok r ->
  unresolved (svgWidth r) && unresolved (svgHeight r) = false.
Proof.
  intros (st & Hd & _)%parseTree_Ok. unfold resolveDimensions in Hd.
  inv_bind Hd. inv_bind Hd. injection Hd as Hd.
  unfold applyDefault in Hd.
  destruct (unresolved _.1 && unresolved _.2) eqn:Hu.
  - by injection Hd as <- <-.
  - rewrite Hd in Hu. exact Hu.
Qed.

Lemma canvas_not_both_unresolved_witness :
  exists r, parseTree docWidthOnly (VRef 0) = Ok r /\
            unresolved (svgWidth r) && unresolved (svgHeight r) = false.
Proof.
  eexists. split; [vm_compute; reflexivity|].
  apply (canvas_not_both_unresolved docWidthOnly (VRef 0)).
  vm_compute; reflexivity.
Defined.

(** ** C2 *)

(** C2 fails on the code: for [<g><rect/></g>] the rect node is the empty
    string, it has no attribute map, reading [rect.$.x] throws and the
    whole parse is rejected. *)
Theorem rect_without_attributes_throws :
  getAttrs docBareRect (VStr "") = Ok None
  /\ (forall cw ch st, extractRect docBareRect cw ch (VStr "") st = Throw)
  /\ parseTree docBareRect (VRef 0) = Throw.
Proof. conjs; try intros cw ch st; vm_compute; reflexivity. Qed.

Lemma extractRect_no_attributes h cw ch rect st :
  getAttrs h rect = Ok None -> extractRect h cw ch rect st = Throw.
Proof. unfold extractRect. by intros ->. Qed.

(** ** C3 *)

(** C3, as stated, fails: for [<g><rect x="abc" width="10" height="10"/></g>]
    the item's [x] is NaN, not 0. *)
Lemma unparsable_is_zero_counterexample :
  exists r item,
    parseTree docBadX (VRef 0) = Ok r /\ items r = [item] /\
    isNaN (x item) = true /\ Num.eq (x item) zero = false.
Proof. eexists _, _. run. Qed.

(** C3, amended: a rect node that is extracted has an attribute map, and
    the item appended for it has [x], [y], [width] and [height] equal to 0
    where the attribute is absent or empty and to [parseFloat] of the text
    otherwise; non-empty text that [parseFloat] cannot read gives NaN. *)
Theorem rect_geometry h cw ch rect st st' :
  extractRect h cw ch rect st = Ok st' ->
  exists a item,
    getAttrs h rect = Ok (Some a) /\
    found st' = found st ++ [item] /\
    x item = attrNumber a "x" /\
    y item = attrNumber a "y" /\
    width item = attrNumber a "width" /\
    height item = attrNumber a "height" /\
    (forall k s, a !! k = Some s -> s <> "" -> parseFloat s = NaN ->
                 attrNumber a k = NaN).
Proof.
  intros (a & Ha & _ & _ & Hf)%extractRect_Ok.
  assert (Hn : forall k, parseFloat (attrOr a k "0") = attrNumber a k).
  { intros k. unfold attrOr, attrNumber.
    destruct (a !! k) as [s|]; [|done]. by destruct (String.eqb s ""). }
  exists a, (rectItem cw ch a). unfold rectItem in *; simpl.
  rewrite !Hn in *. conjs; trivial.
  intros k s Hk Hne Hs. unfold attrNumber. rewrite Hk.
  destruct (String.eqb s "") eqn:He; [|done].
  by apply String.eqb_eq in He.
Qed.

Lemma rect_geometry_witness :
  let st' := {| visited := ∅; totalElementsCount := 0;
                found := [rectItem zero zero
                            (attrMap [("x", "abc"); ("width", "10");
                                      ("height", "10")])] |} in
  extractRect docBadX zero zero (VRef 3) initial = Ok st' /\
  exists a item,
    getAttrs docBadX (VRef 3) = Ok (Some a) /\
    found st' = found initial ++ [item] /\
    x item = attrNumber a "x" /\
    y item = attrNumber a "y" /\
    width item = attrNumber a "width" /\
    height item = attrNumber a "height" /\
    (forall k s, a !! k = Some s -> s <> "" -> parseFloat s = NaN ->
                 attrNumber a k = NaN).
Proof.
  intros st'. split; [vm_compute; reflexivity|].
  apply (rect_geometry docBadX zero zero (VRef 3) initial st').
  vm_compute; reflexivity.
Defined.

(** ** C4 *)

(** C4, as stated, fails: for [<svg width="abc" viewBox="0 0 50 60"/>] the
    width attribute is present and parses to NaN, the viewBox yields four
    numbers, and the resolved width is the viewBox's 50. *)
Lemma nan_attribute_preferred_counterexample :
  exists r,
    parseTree docBadWidth (VRef 0) = Ok r /\
    isNaN (dimensionAttr (attrMap [("width", "abc");
                                   ("viewBox", "0 0 50 60")]) "width")
      = true /\
    parseViewBox "0 0 50 60" = [zero; zero; ofZ 50; ofZ 60] /\
    svgWidth r = ofZ 50 /\
    isNaN (svgWidth r) = false /\ Num.eq (svgWidth r) zero = false.
Proof. eexists. run. Qed.

(** C4, amended: when the root's viewBox yields exactly four numbers, a
    width or height whose attribute value is unresolved (0 or NaN, so a
    present attribute that parses to NaN included) is replaced by the
    viewBox's third or fourth number, which is the resolved size when it
    is not zero; the attribute is preferred over the viewBox only when its
    parsed value is a non-zero number. *)
Theorem viewBox_replaces_unresolved h result svg a s n1 n2 vw vh r :
  getProp h result "svg" = Ok svg ->
  getAttrs h (if truthy svg then svg else result) = Ok (Some a) ->
  a !! "viewBox" = Some s ->
  s <> "" ->
  parseViewBox s = [n1; n2; vw; vh] ->
  parseTree h result = Ok r ->
  (unresolved (dimensionAttr a "width") = true ->
   Num.eq vw zero = false -> svgWidth r = vw)
  /\ (unresolved (dimensionAttr a "height") = true ->
      Num.eq vh zero = false -> svgHeight r = vh)
  /\ (unresolved (dimensionAttr a "width") = false ->
      svgWidth r = dimensionAttr a "width")
  /\ (unresolved (dimensionAttr a "height") = false ->
      svgHeight r = dimensionAttr a "height").
Proof.
  intros Hsvg Hattrs Hvb Hne Hparse (st & Hd & _)%parseTree_Ok.
  unfold resolveDimensions in Hd. rewrite Hsvg in Hd. simpl in Hd.
  rewrite Hattrs in Hd. simpl in Hd. injection Hd as Hd.
  unfold attrDimensions in Hd. rewrite Hvb, Hparse in Hd.
  apply String.eqb_neq in Hne. rewrite Hne in Hd.
  pose proof (parseViewBox_not_NaN s) as Hnn. rewrite Hparse in Hnn.
  apply Forall_cons in Hnn as [_ Hnn]. apply Forall_cons in Hnn as [_ Hnn].
  apply Forall_cons in Hnn as [Hvw Hnn]. apply Forall_cons in Hnn as [Hvh _].
  unfold applyDefault in Hd. cbn [fst snd] in Hd.
  assert (Uvw : Num.eq vw zero = false -> unresolved vw = false)
    by (intros E; unfold unresolved; by rewrite E, Hvw).
  assert (Uvh : Num.eq vh zero = false -> unresolved vh = false)
    by (intros E; unfold unresolved; by rewrite E, Hvh).
  destruct (unresolved (dimensionAttr a "width")) eqn:Uw,
           (unresolved (dimensionAttr a "height")) eqn:Uh;
    conjs; try done; intros; cbn [andb] in Hd;
    try rewrite Uvw in Hd by done; try rewrite Uvh in Hd by done;
    try rewrite Uw in Hd; try rewrite Uh in Hd;
    cbn [andb] in Hd; try rewrite andb_false_r in Hd; congruence.
Qed.

Lemma viewBox_replaces_unresolved_witness :
  exists r,
    parseTree docBadWidth (VRef 0) = Ok r /\
    unresolved (dimensionAttr (attrMap [("width", "abc");
                                        ("viewBox", "0 0 50 60")]) "width")
      = true /\
    svgWidth r = ofZ 50.
Proof.
  eexists. split; [vm_compute; reflexivity|]. split; [vm_compute; reflexivity|].
  eapply (viewBox_replaces_unresolved docBadWidth (VRef 0) (VRef 1)
            (attrMap [("width", "abc"); ("viewBox", "0 0 50 60")])
            "0 0 50 60" zero zero (ofZ 50) (ofZ 60)).
  - vm_compute; reflexivity.
  - vm_compute; reflexivity.
  - vm_compute; reflexivity.
  - discriminate.
  - vm_compute; reflexivity.
  - vm_compute; reflexivity.
  - vm_compute; reflexivity.
  - vm_compute; reflexivity.
Defined.

(** ** C5 *)

(** C5, as stated, fails: for [<g><rect width="-10" height="10"/></g>] on
    the default 100 x 100 canvas the ratio is -100 / 10000, below 0. *)
Lemma coverage_nonneg_counterexample :
  exists r,
    parseTree docNegativeWidth (VRef 0) = Ok r /\
    le zero (coverageRatio r) = false /\
    lt (coverageRatio r) zero = true.
Proof. eexists. run. Qed.

(** A width that is NaN makes the ratio NaN, and so does an unbounded
    area over an unbounded canvas: [0 <= coverageRatio] fails there as
    well. *)
Example coverage_NaN_width :
  exists r, parseTree docBadRectWidth (VRef 0) = Ok r /\
            coverageRatio r = NaN /\ le zero (coverageRatio r) = false.
Proof. eexists. run. Qed.

Example coverage_unbounded_canvas :
  exists r, parseTree docUnbounded (VRef 0) = Ok r /\
            svgWidth r = S754_infinity false /\
            coverageRatio r = NaN.
Proof. eexists. run. Qed.

(** C5, amended: when every rectangle of the result has a finite,
    non-negative width and height and the canvas area is finite, the
    coverage ratio satisfies [0 <= coverageRatio]. *)
Theorem coverage_nonneg h result r :
  parseTree h result = Ok r ->
  Forall properRect (items r) ->
  isFinite (mul (svgWidth r) (svgHeight r)) = true ->
  le zero (coverageRatio r) = true.
Proof.
  intros (st & _ & _ & -> & _ & _ & ->)%parseTree_Ok Hall Hfin.
  destruct (gt (mul (svgWidth r) (svgHeight r)) zero) eqn:Hpos; [|done].
  apply div_nonneg; trivial. by apply totalRectArea_nonneg.
Qed.

Lemma coverage_nonneg_witness :
  exists r,
    parseTree docOneRect (VRef 0) = Ok r /\
    coverageRatio r = parseFloat "0.04" /\
    le zero (coverageRatio r) = true.
Proof.
  eexists. split; [vm_compute; reflexivity|]. split; [vm_compute; reflexivity|].
  apply (coverage_nonneg docOneRect (VRef 0)).
  - vm_compute; reflexivity.
  - apply Forall_cons. split; [|apply Forall_nil; exact I].
    unfold properRect. run.
  - vm_compute; reflexivity.
Defined.

(** * Further properties of the parser *)

(** ** The accumulators only grow *)

Lemma extends_refl st : extends st st.
Proof.
  repeat split; [done|lia|]. exists []. by rewrite app_nil_r.
Qed.

Lemma extends_trans st1 st2 st3 :
  extends st1 st2 -> extends st2 st3 -> extends st1 st3.
Proof.
  intros (Hv & Hc & new & Hf) (Hv' & Hc' & new' & Hf').
  repeat split; [set_solver|lia|].
  exists (new ++ new'). by rewrite Hf', Hf, app_assoc.
Qed.

(** X3: a walk that returns has only added to the accumulators: every
    node visited before is still marked, the count has not decreased, and
    the items found before are still there, in the same order, ahead of
    the new ones. *)
Theorem walk_extends h cw ch fuel element depth st st' :
  extractAllElements h cw ch fuel element depth st = Ok st' ->
  extends st st'.
Proof.
  apply (extractAllElements_invariant h cw ch (extends st));
    [|apply extends_refl].
  clear. intros l s s1 rect s2 HP Hcount Hrect Hrects.
  apply (extends_trans _ _ _ HP).
  apply countTypes_Ok in Hcount as (Hv & Hf & Hc). simpl in *.
  destruct (truthy rect).
  - apply forEach_extractRect_Ok in Hrects
      as (Hv' & Hc' & new & Hf' & _ & _).
    repeat split; [rewrite Hv', Hv; apply union_subseteq_r|lia|].
    exists new. by rewrite Hf', Hf.
  - injection Hrects as <-.
    repeat split; [rewrite Hv; apply union_subseteq_r|lia|].
    exists []. by rewrite Hf, app_nil_r.
Qed.

Lemma walk_extends_witness :
  exists st',
    extractAllElements docFlat zero zero walkFuel (VRef 0) 0 initial = Ok st'
    /\ totalElementsCount st' = 4
    /\ extends initial st'.
Proof.
  eexists. split; [vm_compute; reflexivity|]. split; [reflexivity|].
  eapply (walk_extends docFlat zero zero walkFuel (VRef 0) 0).
  vm_compute; reflexivity.
Defined.

Lemma forEach_walk_extends h cw ch fuel depth l st st' :
  forEach (fun v => extractAllElements h cw ch fuel v depth) l st = Ok st' ->
  extends st st'.
Proof.
  apply (forEach_invariant _ (extends st)); [|apply extends_refl].
  intros v s s' Hs Es. apply (extends_trans _ _ _ Hs).
  eapply walk_extends, Es.
Qed.

(** ** A node is walked once *)

(** X4: after a walk of an object at a depth within the cap has returned,
    the object is marked visited, and walking it again, from any depth and
    with any fuel, leaves the count and the items as they are: a node
    referenced twice is counted once. *)
Theorem node_walked_once h cw ch fuel l depth st st' :
  extractAllElements h cw ch fuel (VRef l) depth st = Ok st' ->
  depth <= MAX_RECURSION_DEPTH ->
  l ∈ visited st' /\
  forall fuel' depth',
    extractAllElements h cw ch (S fuel') (VRef l) depth' st' = Ok st'.
Proof.
  intros E Hd.
  assert (Hl : l ∈ visited st').
  { destruct fuel as [|fuel]; [discriminate|].
    rewrite extractAllElements_S in E.
    apply Nat.ltb_ge in Hd. rewrite Hd in E. cbn [truthy negb orb] in E.
    destruct (bool_decide (l ∈ visited st)) eqn:Hvis.
    { injection E as <-. by apply bool_decide_eq_true in Hvis. }
    inv_bind E. rename a into st1, E0 into Hcount.
    inv_bind E. rename a into rect, E0 into Hrect.
    inv_bind E. rename a into st2, E0 into Hrects.
    inv_bind E. rename a into g, E0 into Hg.
    inv_bind E. rename a into st3, E0 into Hgroups.
    inv_bind E. rename a into svg, E0 into Hsvg.
    apply countTypes_Ok in Hcount as (Hv1 & _ & _). simpl in Hv1.
    assert (Hv2 : visited st2 = visited st1).
    { destruct (truthy rect); [|congruence].
      by apply forEach_extractRect_Ok in Hrects as (? & _). }
    assert (H23 : extends st2 st3).
    { destruct (truthy g); [|injection Hgroups as <-; apply extends_refl].
      eapply forEach_walk_extends, Hgroups. }
    assert (H3 : extends st3 st').
    { destruct (truthy svg && (0 <? depth));
        [|injection E as <-; apply extends_refl].
      eapply forEach_walk_extends, E. }
    destruct H23 as (H23 & _), H3 as (H3 & _).
    apply H3, H23. rewrite Hv2, Hv1.
    apply elem_of_union_l, elem_of_singleton. reflexivity. }
  split; [exact Hl|]. intros fuel' depth'. rewrite extractAllElements_S.
  destruct (negb (truthy (VRef l)) || (MAX_RECURSION_DEPTH <? depth'));
    [done|].
  by rewrite bool_decide_eq_true_2.
Qed.

Lemma node_walked_once_witness :
  exists st',
    extractAllElements docFlat zero zero walkFuel (VRef 0) 0 initial = Ok st'
    /\ 0 ∈ visited st'
    /\ extractAllElements docFlat zero zero 5 (VRef 0) 3 st' = Ok st'.
Proof.
  eexists. split; [vm_compute; reflexivity|].
  split;
    eapply (node_walked_once docFlat zero zero walkFuel 0 0 initial);
    try (vm_compute; reflexivity); unfold MAX_RECURSION_DEPTH; lia.
Defined.

(** ** The issues of a result *)

Lemma hasOutOfBounds_iff (l : list IDesignItem) :
  hasOutOfBounds l = true <->
  exists item, item ∈ l /\ issue item = Some OUT_OF_BOUNDS.
Proof.
  unfold hasOutOfBounds. rewrite existsb_exists. split.
  - intros (item & Hin & Hb). exists item. split; [by apply list_elem_of_In|].
    by apply bool_decide_eq_true in Hb.
  - intros (item & Hin & Hi). exists item. split; [by apply list_elem_of_In|].
    by apply bool_decide_eq_true.
Qed.

(** X1: the issues of a result hold EMPTY exactly when no primitive
    element was counted, OUT_OF_BOUNDS exactly when some item carries that
    issue, and never more than one entry. *)
Theorem issues_characterised h result r :
  parseTree h result = Ok r ->
  (EMPTY ∈ issues r <-> itemsCount r = 0)
  /\ (OUT_OF_BOUNDS ∈ issues r <->
      exists item, item ∈ items r /\ issue item = Some OUT_OF_BOUNDS)
  /\ length (issues r) <= 1.
Proof.
  intros (st & _ & Hwalk & -> & -> & -> & _)%parseTree_Ok.
  apply walk_count_ge_found in Hwalk; [|simpl; lia].
  rewrite <- hasOutOfBounds_iff.
  destruct (totalElementsCount st =? 0) eqn:Hz.
  - apply Nat.eqb_eq in Hz. rewrite Hz in *.
    destruct (found st) as [|i l]; [|simpl in Hwalk; lia].
    simpl. split; [split; [done|intros _; apply list_elem_of_here]|].
    split; [|lia]. split; [|done].
    intros Ho%list_elem_of_singleton. discriminate.
  - apply Nat.eqb_neq in Hz.
    destruct (hasOutOfBounds (found st)); simpl.
    + split; [split; [|done]|].
      * intros He%list_elem_of_singleton. discriminate.
      * split; [|lia]. split; [done|intros _; apply list_elem_of_here].
    + split; [split; [|done]|].
      * by intros He%elem_of_nil.
      * split; [|lia]. split; [|done]. by intros He%elem_of_nil.
Qed.

Lemma issues_characterised_witness :
  exists r,
    parseTree docOneRect (VRef 0) = Ok r /\
    issues r = [OUT_OF_BOUNDS] /\
    ((EMPTY ∈ issues r <-> itemsCount r = 0)
     /\ (OUT_OF_BOUNDS ∈ issues r <->
         exists item, item ∈ items r /\ issue item = Some OUT_OF_BOUNDS)
     /\ length (issues r) <= 1).
Proof.
  eexists. split; [vm_compute; reflexivity|]. split; [reflexivity|].
  apply (issues_characterised docOneRect (VRef 0)). vm_compute; reflexivity.
Defined.

(** ** The ratio without rectangles, or without a positive area *)

Lemma div_zero_positive (b : number) : gt b zero = true -> div zero b = zero.
Proof. by destruct b as [[]|[]| |[] m e]. Qed.

(** X5: a result with no rectangle items, or whose canvas area is not
    greater than 0 (zero, negative or NaN), has a coverage ratio of
    exactly 0: the division is never carried out on a non-positive area. *)
Theorem coverage_zero h result r :
  parseTree h result = Ok r ->
  items r = [] \/ gt (mul (svgWidth r) (svgHeight r)) zero = false ->
  coverageRatio r = zero.
Proof.
  intros (st & _ & _ & Hitems & _ & _ & ->)%parseTree_Ok Hcase.
  destruct (gt (mul (svgWidth r) (svgHeight r)) zero) eqn:Hpos; [|done].
  destruct Hcase as [Hnil|?]; [|done].
  rewrite <- Hitems, Hnil. by apply div_zero_positive.
Qed.

Lemma coverage_zero_witness :
  exists r r',
    parseTree docCycle (VRef 0) = Ok r /\ items r = [] /\
    coverageRatio r = zero /\
    parseTree docWidthOnly (VRef 0) = Ok r' /\ svgHeight r' = zero /\
    coverageRatio r' = zero.
Proof.
  eexists _, _. split; [vm_compute; reflexivity|]. split; [reflexivity|].
  split.
  { apply (coverage_zero docCycle (VRef 0)); [vm_compute; reflexivity|].
    left. reflexivity. }
  split; [vm_compute; reflexivity|]. split; [reflexivity|].
  apply (coverage_zero docWidthOnly (VRef 0)); [vm_compute; reflexivity|].
  right. vm_compute; reflexivity.
Defined.

(** ** The fill of an item *)

Lemma attrOr_nonempty a k d : d <> "" -> attrOr a k d <> "".
Proof.
  intros Hd. unfold attrOr. destruct (a !! k) as [s|]; [|done].
  destruct (String.eqb s "") eqn:He; [done|]. by apply String.eqb_neq.
Qed.

(** X8: every item of a result has a non-empty fill: a rect node
    without a [fill] attribute, or with an empty one, gets ["#000000"]. *)
Theorem fill_never_empty h result r item :
  parseTree h result = Ok r ->
  item ∈ items r ->
  fill item <> "".
Proof.
  intros Hp Hin. destruct (parseTree_items _ _ _ _ Hp Hin) as (a & ->).
  simpl. by apply attrOr_nonempty.
Qed.

Lemma fill_never_empty_witness :
  exists r item,
    parseTree docFullRect (VRef 0) = Ok r /\ items r = [item] /\
    fill item = "#000000" /\ fill item <> "".
Proof.
  eexists _, _. split; [vm_compute; reflexivity|].
  split; [reflexivity|]. split; [reflexivity|].
  eapply (fill_never_empty docFullRect (VRef 0)).
  - vm_compute; reflexivity.
  - apply list_elem_of_singleton. reflexivity.
Defined.

(** ** The root element *)

Lemma getProp_child h l a ch k :
  h l = OElem a ch -> getProp h (VRef l) k = Ok (child ch k).
Proof. intros Hl. simpl. by rewrite Hl. Qed.

Lemma countTypes_exact h l a ch types st :
  h l = OElem a ch ->
  countTypes h (VRef l) types st
  = Ok {| visited := visited st;
          totalElementsCount :=
            totalElementsCount st
            + sum_list (List.map (fun type => siblings h (child ch type))
                          types);
          found := found st |}.
Proof.
  intros Hl. revert st. induction types as [|t types IH]; intros [v c f].
  - simpl. do 2 f_equal. lia.
  - cbn [countTypes]. unfold countType at 1.
    rewrite (getProp_child _ _ _ _ _ Hl). cbn [mbind res_bind].
    rewrite IH. cbn [List.map sum_list sum_list_with]. unfold siblings at 2.
    destruct (truthy (child ch t)); simpl; do 2 f_equal; lia.
Qed.

Lemma resolveDimensions_root h l :
  exists d, resolveDimensions h (VRef l) = Ok d.
Proof.
  unfold resolveDimensions.
  destruct (getProp h (VRef l) "svg") as [svg| |] eqn:Hsvg;
    [|simpl in Hsvg; destruct (h l); discriminate..].
  cbn [mbind res_bind].
  destruct (getAttrs h (if truthy svg then svg else VRef l)) as [oa| |] eqn:Ha.
  - eexists. reflexivity.
  - destruct svg as [|s|l']; simpl in Ha;
      try (destruct (h l); discriminate).
    + destruct (negb (String.eqb s "")); simpl in Ha;
        [discriminate|destruct (h l); discriminate].
    + destruct (h l'); discriminate.
  - destruct svg as [|s|l']; simpl in Ha;
      try (destruct (h l); discriminate).
    + destruct (negb (String.eqb s "")); simpl in Ha;
        [discriminate|destruct (h l); discriminate].
    + destruct (h l'); discriminate.
Qed.

(** The walk of a root element without groups: its primitives are
    counted, its rectangles extracted, and nothing else happens; the
    [svg] entry is not looked into at depth 0. *)
Lemma walk_root_without_groups h cw chh l a ch :
  h l = OElem a ch ->
  truthy (child ch "g") = false ->
  extractAllElements h cw chh walkFuel (VRef l) 0 initial
  = let st1 := {| visited := {[l]} ∪ ∅;
                  totalElementsCount := 0 + primitiveCount h ch;
                  found := [] |} in
    if truthy (child ch "rect")
    then forEach (extractRect h cw chh) (asArray h (child ch "rect")) st1
    else Ok st1.
Proof.
  intros Hl Hg.
  change walkFuel with (S (MAX_RECURSION_DEPTH + 1)).
  rewrite extractAllElements_S. cbn [truthy negb orb].
  change (MAX_RECURSION_DEPTH <? 0) with false. cbn iota.
  rewrite bool_decide_eq_false_2 by apply not_elem_of_empty.
  rewrite (countTypes_exact _ _ _ _ _ _ Hl). cbn [mbind res_bind].
  rewrite !(getProp_child _ _ _ _ _ Hl). cbn [mbind res_bind].
  cbn [visited totalElementsCount found initial].
  fold (primitiveCount h ch). cbv zeta.
  destruct (if truthy (child ch "rect") then _ else _) as [st2| |];
    cbn [mbind res_bind]; try reflexivity.
  rewrite Hg. cbn [mbind res_bind]. by rewrite andb_false_r.
Qed.

(** X9: for a root element without a group child, the parse counts
    exactly the primitive elements directly under the root (the siblings
    under each of the ten tag names) and returns exactly one item for each
    of its rect nodes; what is under the root's [svg] entry is left out. *)
Theorem flat_root_counts h l a ch r :
  h l = OElem a ch ->
  truthy (child ch "g") = false ->
  parseTree h (VRef l) = Ok r ->
  itemsCount r = primitiveCount h ch /\
  length (items r) = siblings h (child ch "rect").
Proof.
  intros Hl Hg (st & _ & Hwalk & -> & -> & _)%parseTree_Ok.
  rewrite (walk_root_without_groups _ _ _ _ _ _ Hl Hg) in Hwalk.
  cbv zeta in Hwalk. unfold siblings.
  destruct (truthy (child ch "rect")).
  - apply forEach_extractRect_Ok in Hwalk
      as (_ & Hc & new & Hf & Hlen & _).
    simpl in Hc, Hf. by rewrite Hc, Hf.
  - by injection Hwalk as <-.
Qed.

Lemma flat_root_counts_witness :
  let ch : gmap string val :=
    list_to_map [("circle", VRef 1); ("rect", VRef 2); ("text", VRef 5)] in
  exists r,
    parseTree docFlat (VRef 0) = Ok r /\
    primitiveCount docFlat ch = 4 /\
    siblings docFlat (child ch "rect") = 2 /\
    itemsCount r = primitiveCount docFlat ch /\
    length (items r) = siblings docFlat (child ch "rect").
Proof.
  intros ch. eexists. split; [vm_compute; reflexivity|].
  split; [vm_compute; reflexivity|]. split; [vm_compute; reflexivity|].
  apply (flat_root_counts docFlat 0 None ch); vm_compute; reflexivity.
Defined.

Lemma primitiveCount_zero h ch :
  Forall (fun k => truthy (child ch k) = false) elementTypes ->
  primitiveCount h ch = 0.
Proof.
  unfold primitiveCount. induction 1 as [|k ks Hk _ IH]; [done|].
  cbn [List.map sum_list sum_list_with]. unfold siblings at 1.
  rewrite Hk. exact IH.
Qed.

Lemma bind_Ok_l {A B} (a : A) (k : A -> res B) : Ok a ≫= k = k a.
Proof. reflexivity. Qed.

Lemma parseTree_intro h result d st :
  resolveDimensions h result = Ok d ->
  extractAllElements h d.1 d.2 walkFuel result 0 initial = Ok st ->
  parseTree h result
  = Ok {| svgWidth := d.1; svgHeight := d.2;
          items := found st; itemsCount := totalElementsCount st;
          coverageRatio :=
            if gt (mul d.1 d.2) zero
            then div (totalRectArea (found st)) (mul d.1 d.2)
            else zero;
          issues :=
            (if totalElementsCount st =? 0 then [EMPTY] else [])
            ++ (if hasOutOfBounds (found st) then [OUT_OF_BOUNDS] else [])
       |}.
Proof.
  intros Hd Hw. unfold parseTree.
  rewrite Hd, bind_Ok_l, Hw, bind_Ok_l. reflexivity.
Qed.

(** X2: a root element with no primitive child and no group child always
    parses, and always to the empty result: no items, a count of 0, the
    single issue EMPTY and a ratio of 0, whatever the store holds under
    the root's [svg] entry. This is the shape xml2js gives every document
    whose root element is [svg]: an object with that one entry. *)
Theorem root_svg_entry_not_walked h l a ch :
  h l = OElem a ch ->
  Forall (fun k => truthy (child ch k) = false) ("g" :: elementTypes) ->
  exists r,
    parseTree h (VRef l) = Ok r /\
    items r = [] /\ itemsCount r = 0 /\
    issues r = [EMPTY] /\ coverageRatio r = zero.
Proof.
  intros Hl Hall. apply Forall_cons in Hall as [Hg Hprim].
  assert (Hrect : truthy (child ch "rect") = false).
  { apply Forall_cons in Hprim as [Hrect _]. exact Hrect. }
  destruct (resolveDimensions_root h l) as [d Hd].
  pose proof (walk_root_without_groups h d.1 d.2 l a ch Hl Hg) as Hw.
  cbv zeta in Hw. rewrite Hrect, (primitiveCount_zero _ _ Hprim) in Hw.
  eexists. split; [exact (parseTree_intro _ _ _ _ Hd Hw)|].
  cbn [items itemsCount issues coverageRatio found totalElementsCount].
  split; [reflexivity|]. split; [reflexivity|]. split; [reflexivity|].
  destruct (gt (mul d.1 d.2) zero) eqn:Hpos; [|reflexivity].
  change (totalRectArea []) with zero. exact (div_zero_positive _ Hpos).
Qed.

Lemma root_svg_entry_not_walked_witness :
  exists r,
    parseTree docWrapped (VRef 0) = Ok r /\
    items r = [] /\ itemsCount r = 0 /\
    issues r = [EMPTY] /\ coverageRatio r = zero.
Proof.
  apply (root_svg_entry_not_walked docWrapped 0 None
           (list_to_map [("svg", VRef 1)])).
  - vm_compute; reflexivity.
  - repeat (apply Forall_cons; split; [vm_compute; reflexivity|]).
    apply Forall_nil. exact I.
Defined.

(** ** The default size *)

(** X7: when the element the size is read from has no attribute map, or
    its [width] and [height] are both unresolved after reading the
    attributes (absent, empty, zero or unparsable) and its [viewBox] does
    not yield exactly four numbers, the canvas is 100 x 100. *)
Theorem default_canvas h result svg oa r :
  parseTree h result = Ok r ->
  getProp h result "svg" = Ok svg ->
  getAttrs h (if truthy svg then svg else result) = Ok oa ->
  (forall a, oa = Some a ->
     unresolved (dimensionAttr a "width") = true /\
     unresolved (dimensionAttr a "height") = true /\
     forall s, a !! "viewBox" = Some s -> length (parseViewBox s) <> 4) ->
  svgWidth r = ofZ 100 /\ svgHeight r = ofZ 100.
Proof.
  intros (st & Hd & _)%parseTree_Ok Hsvg Hattrs Hoa.
  unfold resolveDimensions in Hd. rewrite Hsvg in Hd.
  cbn [mbind res_bind] in Hd. rewrite Hattrs in Hd.
  cbn [mbind res_bind] in Hd. injection Hd as Hd.
  assert (Hpre : exists w0 h0,
             match oa with
             | Some a => attrDimensions a
             | None => (zero, zero)
             end = (w0, h0)
             /\ unresolved w0 = true /\ unresolved h0 = true).
  { destruct oa as [a|]; [|by exists zero, zero].
    destruct (Hoa a eq_refl) as (Hw & Hh & Hvb).
    exists (dimensionAttr a "width"), (dimensionAttr a "height").
    split; [|done]. unfold attrDimensions.
    destruct (a !! "viewBox") as [s|]; [|done].
    destruct (String.eqb s ""); [done|].
    specialize (Hvb s eq_refl).
    by destruct (parseViewBox s) as [|? [|? [|? [|? [|? ?]]]]]. }
  destruct Hpre as (w0 & h0 & Hpre & Hw & Hh). rewrite Hpre in Hd.
  unfold applyDefault in Hd. cbn [fst snd] in Hd. rewrite Hw, Hh in Hd.
  by injection Hd as <- <-.
Qed.

Lemma default_canvas_witness :
  exists r,
    parseTree docNoDimensions (VRef 0) = Ok r /\
    svgWidth r = ofZ 100 /\ svgHeight r = ofZ 100.
Proof.
  eexists. split; [vm_compute; reflexivity|].
  eapply (default_canvas docNoDimensions (VRef 0) (VRef 1)
            (Some (attrMap [("width", "abc"); ("viewBox", "0 0 50")]))).
  - vm_compute; reflexivity.
  - vm_compute; reflexivity.
  - vm_compute; reflexivity.
  - intros a Ha. injection Ha as <-.
    split; [vm_compute; reflexivity|]. split; [vm_compute; reflexivity|].
    intros s Hs. vm_compute in Hs. injection Hs as <-.
    vm_compute. discriminate.
Defined.

(** ** Sizes read from attributes are never negative *)

Lemma signed_false_le (a : number) : signed false a -> le zero a = true.
Proof.
  intros H. apply le_zero_iff. destruct a as [s|s| |s m e]; simpl in *; done.
Qed.

Lemma readDigits_nonneg l : forall acc n,
  (0 <= acc)%Z -> (0 <= (readDigits acc n l).1.1)%Z.
Proof.
  induction l as [|c l IH]; intros acc n Hacc; simpl; [done|].
  destruct (isDigit c) eqn:Hc; [|done]. apply IH.
  unfold isDigit in Hc. apply andb_true_iff in Hc as [Hlo _].
  apply Nat.leb_le in Hlo. unfold digitVal. lia.
Qed.

Lemma ofDecimal_nonneg m e10 :
  (0 <= m)%Z -> le zero (ofDecimal false m e10) = true.
Proof.
  intros Hm. unfold ofDecimal. destruct m as [|p|p]; [done| |lia].
  destruct (0 <=? e10)%Z eqn:He.
  - apply Z.leb_le in He. unfold cond_Zopp, binary_normalize.
    pose proof (Z.pow_nonneg 10 e10 ltac:(lia)) as Hpow.
    destruct (Z.pos p * 10 ^ e10)%Z as [|q|q] eqn:Hq; [done| |lia].
    apply signed_false_le, binary_round_signed.
  - exact (div_nonneg (S754_finite false p 0)
             (S754_finite false (Z.to_pos (10 ^ (- e10))) 0)
             eq_refl eq_refl eq_refl).
Qed.

Lemma parseUnsigned_nonneg l :
  isNaN (parseUnsigned false l) = true \/
  le zero (parseUnsigned false l) = true.
Proof.
  unfold parseUnsigned. destruct (isPrefix _ l); [by right|].
  pose proof (readDigits_nonneg l 0 0 ltac:(lia)) as Hip.
  destruct (readDigits 0 0 l) as [[ip ni] l1]. simpl in Hip.
  destruct l1 as [|c l2].
  { destruct (ni =? 0)%Z; [by left|]. right. by apply ofDecimal_nonneg. }
  destruct (code c =? 46).
  - pose proof (readDigits_nonneg l2 ip 0 Hip) as Hm.
    destruct (readDigits ip 0 l2) as [[m nf] l3]. simpl in Hm.
    destruct ((ni =? 0)%Z && (nf =? 0)%Z); [by left|].
    right. by apply ofDecimal_nonneg.
  - destruct (ni =? 0)%Z; [by left|]. right. by apply ofDecimal_nonneg.
Qed.

Lemma digit_or_dot_plain c :
  isDigit c || (code c =? 46) = true ->
  isSpace c = false /\ (code c =? 45) = false /\ (code c =? 43) = false.
Proof.
  unfold isDigit, isSpace. intros H.
  assert (Hc : 48 <= code c <= 57 \/ code c = 46).
  { apply orb_true_iff in H as [H|H].
    - apply andb_true_iff in H as [H1 H2].
      apply Nat.leb_le in H1, H2. lia.
    - apply Nat.eqb_eq in H. lia. }
  repeat split; apply not_true_is_false; intros H';
    rewrite ?orb_true_iff, ?andb_true_iff, ?Nat.leb_le, ?Nat.eqb_eq in H';
    lia.
Qed.

Lemma parseFloat_keepDigitsAndDots_nonneg s :
  isNaN (parseFloat (keepDigitsAndDots s)) = true \/
  le zero (parseFloat (keepDigitsAndDots s)) = true.
Proof.
  unfold parseFloat, keepDigitsAndDots, chars, ofChars.
  rewrite list_ascii_of_string_of_list_ascii.
  destruct (List.filter _ _) as [|c l] eqn:E; [by left|].
  assert (Hc : isDigit c || (code c =? 46) = true).
  { assert (Hin : In c (c :: l)) by (by left).
    rewrite <- E in Hin. by apply filter_In in Hin as [_ ?]. }
  destruct (digit_or_dot_plain c Hc) as (Hs & Hm & Hp).
  cbn [dropSpaces]. rewrite Hs, Hm, Hp. apply parseUnsigned_nonneg.
Qed.

Lemma dimensionAttr_nonneg a k :
  isNaN (dimensionAttr a k) = true \/ le zero (dimensionAttr a k) = true.
Proof.
  unfold dimensionAttr. destruct (a !! k) as [s|]; [|by right].
  destruct (String.eqb s ""); [by right|].
  apply parseFloat_keepDigitsAndDots_nonneg.
Qed.

(** X6: when the element the size is read from has no [viewBox]
    attribute, neither dimension of the canvas is negative: each is NaN or
    satisfies [0 <= n], since every character of [width] and [height]
    other than digits and dots, a minus sign included, is dropped before
    parsing. *)
Theorem canvas_from_attributes_nonneg h result svg oa r :
  parseTree h result = Ok r ->
  getProp h result "svg" = Ok svg ->
  getAttrs h (if truthy svg then svg else result) = Ok oa ->
  (forall a, oa = Some a -> a !! "viewBox" = None) ->
  (isNaN (svgWidth r) = true \/ le zero (svgWidth r) = true) /\
  (isNaN (svgHeight r) = true \/ le zero (svgHeight r) = true).
Proof.
  intros (st & Hd & _)%parseTree_Ok Hsvg Hattrs Hoa.
  unfold resolveDimensions in Hd. rewrite Hsvg, bind_Ok_l in Hd.
  rewrite Hattrs, bind_Ok_l in Hd. injection Hd as Hd.
  assert (Hpre : exists w0 h0,
             match oa with
             | Some a => attrDimensions a
             | None => (zero, zero)
             end = (w0, h0)
             /\ (isNaN w0 = true \/ le zero w0 = true)
             /\ (isNaN h0 = true \/ le zero h0 = true)).
  { destruct oa as [a|]; [|exists zero, zero; by auto].
    exists (dimensionAttr a "width"), (dimensionAttr a "height").
    split; [|split; apply dimensionAttr_nonneg].
    unfold attrDimensions. by rewrite (Hoa a eq_refl). }
  destruct Hpre as (w0 & h0 & Hpre & Hw & Hh). rewrite Hpre in Hd.
  unfold applyDefault in Hd. cbn [fst snd] in Hd.
  destruct (unresolved w0 && unresolved h0).
  - injection Hd as <- <-. split; by right.
  - by injection Hd as <- <-.
Qed.

Lemma canvas_from_attributes_nonneg_witness :
  exists r,
    parseTree docWidthOnly (VRef 0) = Ok r /\
    svgWidth r = ofZ 200 /\
    (isNaN (svgWidth r) = true \/ le zero (svgWidth r) = true) /\
    (isNaN (svgHeight r) = true \/ le zero (svgHeight r) = true).
Proof.
  eexists. split; [vm_compute; reflexivity|]. split; [vm_compute; reflexivity|].
  eapply (canvas_from_attributes_nonneg docWidthOnly (VRef 0) (VRef 1)
            (Some (attrMap [("width", "200")]))).
  - vm_compute; reflexivity.
  - vm_compute; reflexivity.
  - vm_compute; reflexivity.
  - intros a Ha. injection Ha as <-. vm_compute; reflexivity.
Defined.

(** ** When the parse cannot throw *)

Lemma bind_no_throw {A B} (m : res A) (k : A -> res B) :
  m <> Throw -> (forall a, m = Ok a -> k a <> Throw) -> m ≫= k <> Throw.
Proof. destruct m; simpl; auto. Qed.

Lemma forEach_no_throw {A S} (f : A -> S -> res S) (l : list A) :
  Forall (fun a => forall st, f a st <> Throw) l ->
  forall st, forEach f l st <> Throw.
Proof.
  induction 1 as [|a l Ha _ IH]; simpl; intros st; [done|].
  apply bind_no_throw; auto.
Qed.

Lemma getProp_VRef h l k : exists v, getProp h (VRef l) k = Ok v.
Proof. simpl. destruct (h l); eauto. Qed.

Lemma countTypes_no_throw h l types st :
  countTypes h (VRef l) types st <> Throw.
Proof.
  revert st; induction types as [|t types IH]; simpl; intros st; [done|].
  apply bind_no_throw; [|auto]. unfold countType.
  destruct (getProp_VRef h l t) as [v ->]. done.
Qed.

Lemma extractRect_no_throw h cw ch v st :
  (exists a, getAttrs h v = Ok (Some a)) ->
  extractRect h cw ch v st <> Throw.
Proof. intros [a Ha]. unfold extractRect. by rewrite Ha. Qed.

Lemma extractAllElements_no_throw h cw ch :
  wellFormed h ->
  forall fuel element depth st,
    walkable element ->
    extractAllElements h cw ch fuel element depth st <> Throw.
Proof.
  intros WF fuel. induction fuel as [|fuel IH];
    intros element depth st Hel; [done|].
  rewrite extractAllElements_S.
  destruct Hel as [Hfalsy|[l ->]]; [by rewrite Hfalsy|].
  destruct (negb (truthy (VRef l)) || (MAX_RECURSION_DEPTH <? depth));
    [done|].
  destruct (bool_decide (l ∈ visited st)); [done|].
  assert (Hwalks : forall d vs s,
             Forall walkable vs ->
             forEach (fun v => extractAllElements h cw ch fuel v d) vs s
             <> Throw).
  { intros d vs s Hvs. apply forEach_no_throw.
    eapply Forall_impl; [exact Hvs|]. intros v Hv s'. by apply IH. }
  apply bind_no_throw; [apply countTypes_no_throw|intros st1 _].
  destruct (h l) as [a c|vs] eqn:Hl.
  - destruct (WF l a c Hl) as (Hrect & Hg & Hsvg).
    rewrite !(getProp_child _ _ _ _ _ Hl), !bind_Ok_l.
    apply bind_no_throw; [|intros st2 _].
    { destruct (truthy (child c "rect")); [|done].
      apply forEach_no_throw. eapply Forall_impl; [exact (Hrect eq_refl)|].
      intros v Hv s'. by apply extractRect_no_throw. }
    rewrite bind_Ok_l. apply bind_no_throw; [|intros st3 _].
    { destruct (truthy (child c "g")); [|done]. by apply Hwalks, Hg. }
    rewrite bind_Ok_l.
    destruct (truthy (child c "svg")); [|done].
    destruct (0 <? depth); [|done]. by apply Hwalks, Hsvg.
  - simpl. by rewrite Hl.
Qed.

(** X10: on a store in which every rect node has an attribute map and
    every group or nested document is an object (or a falsy value), the
    parse of any object returns a result: it neither throws nor runs out
    of fuel. *)
Theorem wellFormed_parses h l :
  wellFormed h ->
  exists r, parseTree h (VRef l) = Ok r.
Proof.
  intros WF. destruct (resolveDimensions_root h l) as [d Hd].
  destruct (extractAllElements h d.1 d.2 walkFuel (VRef l) 0 initial)
    as [st| |] eqn:Hw.
  - eexists. exact (parseTree_intro _ _ _ _ Hd Hw).
  - exfalso. revert Hw. apply extractAllElements_no_throw; [done|].
    right. by exists l.
  - exfalso. revert Hw. apply extractAllElements_fuel.
    unfold walkFuel. lia.
Qed.

Ltac wellFormed_entry :=
  match goal with
  | |- Forall _ ?l =>
      let l' := eval vm_compute in l in
      change l with l';
      repeat (apply Forall_cons; split);
      try (apply Forall_nil; exact I);
      try (eexists; vm_compute; reflexivity);
      try (right; eexists; reflexivity)
  end.

Lemma docNested_wellFormed : wellFormed docNested.
Proof.
  intros l a ch Hl.
  do 8 (destruct l as [|l];
        [vm_compute in Hl; try discriminate; injection Hl as <- <-;
         (split; [|split]); intros Ht; try (vm_compute in Ht; discriminate);
         wellFormed_entry|]).
  vm_compute in Hl. injection Hl as <- <-.
  (split; [|split]); intros Ht; vm_compute in Ht; discriminate.
Qed.

Lemma wellFormed_parses_witness :
  wellFormed docNested /\ exists r, parseTree docNested (VRef 0) = Ok r.
Proof.
  split; [exact docNested_wellFormed|].
  apply (wellFormed_parses docNested 0), docNested_wellFormed.
Defined.

(** ** The depth cap on a chain of groups *)

Lemma docChain_group n l :
  l < n -> docChain n l = OElem None {[ "g" := VRef (S l) ]}.
Proof.
  intros H. unfold docChain. apply Nat.ltb_lt in H. by rewrite H.
Qed.

Lemma docChain_last n :
  docChain n n = OElem None {[ "circle" := VRef (S n) ]}.
Proof. unfold docChain. by rewrite Nat.ltb_irrefl, Nat.eqb_refl. Qed.

Lemma docChain_array n : docChain n (S n) = OArr [VStr ""].
Proof.
  unfold docChain.
  destruct (S n <? n) eqn:H1; [apply Nat.ltb_lt in H1; lia|].
  destruct (S n =? n) eqn:H2; [apply Nat.eqb_eq in H2; lia|]. done.
Qed.

Lemma docChain_element n l :
  l <= n -> exists ch, docChain n l = OElem None ch.
Proof.
  intros H. destruct (decide (l = n)) as [->|Hne].
  - eexists. apply docChain_last.
  - eexists. apply docChain_group. lia.
Qed.

Lemma walk_chain n cw ch k : forall i fuel st,
  i + k = n ->
  MAX_RECURSION_DEPTH + 1 - i < fuel ->
  (forall j, i <= j -> j ∉ visited st) ->
  exists st',
    extractAllElements (docChain n) cw ch fuel (VRef i) i st = Ok st' /\
    totalElementsCount st'
    = totalElementsCount st + (if n <=? MAX_RECURSION_DEPTH then 1 else 0) /\
    found st' = found st.
Proof.
  induction k as [|k IH]; intros i fuel st Hik Hfuel Hfresh;
    (destruct fuel as [|fuel]; [lia|]);
    rewrite extractAllElements_S; cbn [truthy negb orb];
    (destruct (MAX_RECURSION_DEPTH <? i) eqn:Hd;
     [apply Nat.ltb_lt in Hd; exists st;
      destruct (n <=? MAX_RECURSION_DEPTH) eqn:Hn;
      [apply Nat.leb_le in Hn; lia|];
      split; [done|split; [lia|done]]|]);
    apply Nat.ltb_ge in Hd;
    rewrite bool_decide_eq_false_2 by (apply Hfresh; lia).
  - assert (i = n) as -> by lia.
    rewrite (countTypes_exact _ _ _ _ _ _ (docChain_last n)), bind_Ok_l.
    rewrite !(getProp_child _ _ _ _ _ (docChain_last n)), !bind_Ok_l.
    change (child {[ "circle" := VRef (S n) ]} "rect") with VUndef.
    change (child {[ "circle" := VRef (S n) ]} "g") with VUndef.
    change (child {[ "circle" := VRef (S n) ]} "svg") with VUndef.
    cbn [truthy andb]. rewrite !bind_Ok_l.
    eexists. split; [reflexivity|]. split; [|reflexivity].
    cbn [totalElementsCount]. apply Nat.leb_le in Hd. rewrite Hd.
    f_equal. unfold elementTypes, siblings, child.
    cbn [List.map sum_list sum_list_with].
    rewrite lookup_singleton_eq, !lookup_singleton_ne by done.
    cbn [from_option id truthy asArray]. by rewrite docChain_array.
  - assert (Hlt : i < n) by lia.
    rewrite (countTypes_exact _ _ _ _ _ _ (docChain_group n i Hlt)), bind_Ok_l.
    rewrite !(getProp_child _ _ _ _ _ (docChain_group n i Hlt)), !bind_Ok_l.
    change (child {[ "g" := VRef (S i) ]} "rect") with VUndef.
    change (child {[ "g" := VRef (S i) ]} "g") with (VRef (S i)).
    change (child {[ "g" := VRef (S i) ]} "svg") with VUndef.
    cbn [truthy andb]. rewrite !bind_Ok_l.
    destruct (docChain_element n (S i) ltac:(lia)) as [ch' Hch'].
    cbn [asArray]. rewrite Hch'. cbn [forEach].
    edestruct (IH (S i) fuel) as (st' & Hw & Hc & Hf);
      [lia|lia| |rewrite Hw, !bind_Ok_l].
    { cbn [visited]. intros j Hj Hin.
      apply elem_of_union in Hin as [Hin|Hin].
      - apply elem_of_singleton in Hin. lia.
      - revert Hin. apply Hfresh. lia. }
    exists st'. split; [reflexivity|]. rewrite Hc, Hf.
    cbn [totalElementsCount found]. split; [|reflexivity].
    f_equal. unfold elementTypes, siblings, child.
    cbn [List.map sum_list sum_list_with].
    by rewrite !lookup_singleton_ne by done.
Qed.

(** X11: for [n] groups nested in one another around a single circle, the
    parse returns, and the circle is counted exactly when [n] is at most
    100: an element under more than 100 groups is silently left out of
    the count. *)
Theorem depth_cap_on_chain n :
  exists r,
    parseTree (docChain n) (VRef 0) = Ok r /\
    itemsCount r = (if n <=? MAX_RECURSION_DEPTH then 1 else 0) /\
    items r = [].
Proof.
  destruct (resolveDimensions_root (docChain n) 0) as [d Hd].
  destruct (walk_chain n d.1 d.2 n 0 walkFuel initial)
    as (st & Hw & Hc & Hf).
  - lia.
  - unfold walkFuel. lia.
  - intros j _. apply not_elem_of_empty.
  - eexists. split; [exact (parseTree_intro _ _ _ _ Hd Hw)|].
    cbn [items itemsCount]. by rewrite Hc, Hf.
Qed.

(** ** When the parse is bound to throw *)

Lemma bind_Throw_l {A B} (k : A -> res B) : Throw ≫= k = Throw.
Proof. reflexivity. Qed.

Lemma forEach_throw {A S} (f : A -> S -> res S) (l : list A) :
  (forall a st, f a st <> OutOfFuel) ->
  Exists (fun a => forall st, f a st = Throw) l ->
  forall st, forEach f l st = Throw.
Proof.
  intros Hfuel. induction 1 as [a l Ha|a l _ IH]; intros st; simpl.
  - by rewrite Ha.
  - destruct (f a st) as [st'| |] eqn:E; simpl; [apply IH|done|].
    by apply Hfuel in E.
Qed.

Lemma extractRect_throw h cw ch v st :
  (forall a, getAttrs h v <> Ok (Some a)) ->
  extractRect h cw ch v st = Throw.
Proof.
  intros Hv. unfold extractRect.
  destruct (getAttrs h v) as [[a|]| |] eqn:E; simpl; try done.
  - by destruct (Hv a).
  - destruct v as [| |l]; simpl in E; try done. destruct (h l); done.
Qed.

(** The walk of a root element, as far as its rectangles. *)
Lemma walk_root h cw chh l a ch :
  h l = OElem a ch ->
  extractAllElements h cw chh walkFuel (VRef l) 0 initial
  = st ← (if truthy (child ch "rect")
          then forEach (extractRect h cw chh) (asArray h (child ch "rect"))
                 {| visited := {[l]} ∪ ∅;
                    totalElementsCount := 0 + primitiveCount h ch;
                    found := [] |}
          else Ok {| visited := {[l]} ∪ ∅;
                     totalElementsCount := 0 + primitiveCount h ch;
                     found := [] |});
    st ← (if truthy (child ch "g")
          then forEach
                 (fun group =>
                    extractAllElements h cw chh (MAX_RECURSION_DEPTH + 1)
                      group 1)
                 (asArray h (child ch "g")) st
          else Ok st);
    Ok st.
Proof.
  intros Hl.
  change walkFuel with (S (MAX_RECURSION_DEPTH + 1)).
  rewrite extractAllElements_S. cbn [truthy negb orb].
  change (MAX_RECURSION_DEPTH <? 0) with false. cbn iota.
  rewrite bool_decide_eq_false_2 by apply not_elem_of_empty.
  rewrite (countTypes_exact _ _ _ _ _ _ Hl), bind_Ok_l.
  rewrite !(getProp_child _ _ _ _ _ Hl), bind_Ok_l.
  cbn [visited totalElementsCount found initial].
  fold (primitiveCount h ch).
  apply bind_ext; intros st2. rewrite bind_Ok_l.
  apply bind_ext; intros st3. rewrite bind_Ok_l.
  by rewrite andb_false_r.
Qed.

Lemma parseTree_throw h result d :
  resolveDimensions h result = Ok d ->
  extractAllElements h d.1 d.2 walkFuel result 0 initial = Throw ->
  parseTree h result = Throw.
Proof.
  intros Hd Hw. unfold parseTree.
  rewrite Hd, bind_Ok_l, Hw, bind_Throw_l. reflexivity.
Qed.

(** X14: if any rect node directly under the root element has no
    attribute map, the whole parse throws, whatever the other rect nodes
    and the rest of the tree hold: no result is returned for the
    rectangles that were fine. *)
Theorem root_rect_without_attributes_throws h l a ch :
  h l = OElem a ch ->
  truthy (child ch "rect") = true ->
  Exists (fun v => forall a', getAttrs h v <> Ok (Some a'))
         (asArray h (child ch "rect")) ->
  parseTree h (VRef l) = Throw.
Proof.
  intros Hl Hrect Hbad. destruct (resolveDimensions_root h l) as [d Hd].
  apply (parseTree_throw _ _ _ Hd).
  rewrite (walk_root _ _ _ _ _ _ Hl), Hrect.
  rewrite forEach_throw; [reflexivity|apply extractRect_fuel|].
  eapply Exists_impl; [exact Hbad|].
  intros v Hv st. by apply extractRect_throw.
Qed.

Lemma root_rect_without_attributes_throws_witness :
  parseTree docBareRect (VRef 1) = Throw.
Proof.
  apply (root_rect_without_attributes_throws docBareRect 1 None
           (list_to_map [("rect", VRef 2)])).
  - vm_compute; reflexivity.
  - vm_compute; reflexivity.
  - replace (asArray _ _) with [VStr ""] by (vm_compute; reflexivity).
    apply Exists_cons_hd. intros a'. vm_compute. discriminate.
Defined.

(** X15: if a group directly under the root element is a non-empty
    string (a group holding only text), the whole parse throws: the
    string cannot be added to the set of visited nodes. *)
Theorem root_text_group_throws h l a ch :
  h l = OElem a ch ->
  Exists (fun v => exists s, v = VStr s /\ s <> "")
         (asArray h (child ch "g")) ->
  parseTree h (VRef l) = Throw.
Proof.
  intros Hl Hbad. destruct (resolveDimensions_root h l) as [d Hd].
  apply (parseTree_throw _ _ _ Hd).
  rewrite (walk_root _ _ _ _ _ _ Hl).
  assert (Hg : truthy (child ch "g") = true).
  { destruct (child ch "g") as [|s|l'] eqn:Eg; [| |done].
    - apply Exists_cons in Hbad as [(s & Hs & _)|Hbad]; [done|].
      by apply Exists_nil in Hbad.
    - apply Exists_cons in Hbad as [(s' & [= <-] & Hs)|Hbad].
      + simpl. by apply String.eqb_neq in Hs as ->.
      + by apply Exists_nil in Hbad. }
  rewrite Hg.
  destruct (if truthy (child ch "rect") then _ else _) as [st2| |] eqn:E;
    [rewrite bind_Ok_l|reflexivity|].
  - rewrite forEach_throw; [reflexivity| |].
    + intros v st. apply extractAllElements_fuel.
      unfold MAX_RECURSION_DEPTH. lia.
    + eapply Exists_impl; [exact Hbad|].
      intros v (s & -> & Hs) st.
      change (MAX_RECURSION_DEPTH + 1) with (S MAX_RECURSION_DEPTH).
      rewrite extractAllElements_S. cbn [truthy].
      apply String.eqb_neq in Hs. by rewrite Hs.
  - exfalso. revert E. destruct (truthy (child ch "rect")); [|done].
    apply forEach_fuel, extractRect_fuel.
Qed.

Lemma root_text_group_throws_witness :
  parseTree docTextGroup (VRef 1) = Throw.
Proof.
  apply (root_text_group_throws docTextGroup 1 None
           (list_to_map [("g", VRef 2)])).
  - vm_compute; reflexivity.
  - replace (asArray _ _) with [VStr "hello"] by (vm_compute; reflexivity).
    apply Exists_cons_hd. exists "hello". split; [reflexivity|discriminate].
Defined.

(** * Properties of the detail page *)

Lemma not_le_zero_gt (a : number) :
  isNaN a = false -> le a zero = false -> gt a zero = true.
Proof. by destruct a as [[]|[]| |[] m e]. Qed.

Lemma gt_zero_cases (b : number) :
  gt b zero = true ->
  b = S754_infinity false \/ exists m e, b = S754_finite false m e.
Proof. destruct b as [[]|[]| |[] m e]; try done; eauto. Qed.

(** A number that is not greater than 0, times a positive scale, is
    again not greater than 0. *)
Lemma mul_not_positive (a b : number) :
  gt a zero = false -> gt b zero = true ->
  isNaN (mul a b) = true \/ le (mul a b) zero = true.
Proof.
  intros Ha Hb. destruct (gt_zero_cases b Hb) as [->|(mb & eb & ->)].
  - destruct a as [[]|[]| |[] ma ea]; try done; auto.
  - destruct a as [[]|[]| |[] ma ea]; try done; auto.
    right. unfold mul, SFmul. cbn [xorb].
    pose proof (binary_round_aux_signed prec emax true (Z.pos (ma * mb))
                  (ea + eb) loc_Exact ltac:(lia)) as H.
    by destruct (binary_round_aux _ _ _ _ _ _) as [[]|[]| |[] m e].
Qed.

Lemma overlayRect_Some scaleX scaleY item drawn :
  Page.overlayRect scaleX scaleY item = Some drawn ->
  drawn = {| Page.rectX := mul (x item) scaleX;
             Page.rectY := mul (y item) scaleY;
             Page.rectWidth := mul (width item) scaleX;
             Page.rectHeight := mul (height item) scaleY |} /\
  isNaN (mul (x item) scaleX) = false /\
  isNaN (mul (y item) scaleY) = false /\
  isNaN (mul (width item) scaleX) = false /\
  isNaN (mul (height item) scaleY) = false /\
  le (mul (width item) scaleX) zero = false /\
  le (mul (height item) scaleY) zero = false.
Proof.
  unfold Page.overlayRect.
  destruct (isNaN (mul (x item) scaleX)); [done|].
  destruct (isNaN (mul (y item) scaleY)); [done|].
  destruct (isNaN (mul (width item) scaleX)); [done|].
  destruct (isNaN (mul (height item) scaleY)); [done|].
  destruct (le (mul (width item) scaleX) zero); [done|].
  destruct (le (mul (height item) scaleY) zero); [done|].
  cbn [orb]. by intros [= <-].
Qed.

(** X12: every rectangle [drawInteractiveOverlay] fills is the image of
    an item under the scale canvas size / SVG size, has no NaN coordinate
    and has a width and a height greater than 0; and where the scale of
    an axis is greater than 0, only items whose own extent along that axis
    is greater than 0 are drawn, so items of zero, negative or NaN width
    or height never reach the canvas. *)
Theorem overlay_rects canvasWidth canvasHeight sw sh l drawn :
  drawn ∈ Page.drawInteractiveOverlay canvasWidth canvasHeight sw sh l ->
  exists item,
    item ∈ l /\
    Page.rectX drawn = mul (x item) (div canvasWidth sw) /\
    Page.rectY drawn = mul (y item) (div canvasHeight sh) /\
    Page.rectWidth drawn = mul (width item) (div canvasWidth sw) /\
    Page.rectHeight drawn = mul (height item) (div canvasHeight sh) /\
    isNaN (Page.rectX drawn) = false /\
    isNaN (Page.rectY drawn) = false /\
    gt (Page.rectWidth drawn) zero = true /\
    gt (Page.rectHeight drawn) zero = true /\
    (gt (div canvasWidth sw) zero = true -> gt (width item) zero = true) /\
    (gt (div canvasHeight sh) zero = true -> gt (height item) zero = true).
Proof.
  unfold Page.drawInteractiveOverlay. intros Hin.
  assert (Hin' : drawn ∈ omap (Page.overlayRect (div canvasWidth sw)
                                 (div canvasHeight sh)) l).
  { destruct l; [by apply elem_of_nil in Hin|exact Hin]. }
  clear Hin. apply list_elem_of_omap in Hin' as (item & Hitem & Hdrawn).
  apply overlayRect_Some in Hdrawn
    as (-> & Nx & Ny & Nw & Nh & Lw & Lh).
  exists item. cbn [Page.rectX Page.rectY Page.rectWidth Page.rectHeight].
  do 5 (split; [done|]). do 2 (split; [done|]).
  split; [by apply not_le_zero_gt|]. split; [by apply not_le_zero_gt|].
  split; intros Hs.
  - destruct (gt (width item) zero) eqn:Hw; [done|].
    destruct (mul_not_positive _ _ Hw Hs) as [H|H]; congruence.
  - destruct (gt (height item) zero) eqn:Hh; [done|].
    destruct (mul_not_positive _ _ Hh Hs) as [H|H]; congruence.
Qed.

Lemma overlay_rects_witness :
  let item := {| x := ofZ 90; y := ofZ 90; width := ofZ 20;
                 height := ofZ 20; fill := "#f00";
                 issue := Some OUT_OF_BOUNDS |} in
  let hidden := {| x := ofZ 5; y := ofZ 5; width := ofZ (-10);
                   height := ofZ 10; fill := "#000000"; issue := None |} in
  let drawn := {| Page.rectX := ofZ 180; Page.rectY := ofZ 180;
                  Page.rectWidth := ofZ 40; Page.rectHeight := ofZ 40 |} in
  Page.drawInteractiveOverlay (ofZ 200) (ofZ 200) (ofZ 100) (ofZ 100)
    [hidden; item] = [drawn]
  /\ exists item',
       item' ∈ [hidden; item] /\
       Page.rectX drawn = mul (x item') (div (ofZ 200) (ofZ 100)) /\
       Page.rectY drawn = mul (y item') (div (ofZ 200) (ofZ 100)) /\
       Page.rectWidth drawn = mul (width item') (div (ofZ 200) (ofZ 100)) /\
       Page.rectHeight drawn = mul (height item') (div (ofZ 200) (ofZ 100)) /\
       isNaN (Page.rectX drawn) = false /\
       isNaN (Page.rectY drawn) = false /\
       gt (Page.rectWidth drawn) zero = true /\
       gt (Page.rectHeight drawn) zero = true /\
       (gt (div (ofZ 200) (ofZ 100)) zero = true ->
        gt (width item') zero = true) /\
       (gt (div (ofZ 200) (ofZ 100)) zero = true ->
        gt (height item') zero = true).
Proof.
  intros item hidden drawn. split; [vm_compute; reflexivity|].
  apply (overlay_rects (ofZ 200) (ofZ 200) (ofZ 100) (ofZ 100)
           [hidden; item] drawn).
  replace (Page.drawInteractiveOverlay _ _ _ _ _) with [drawn]
    by (vm_compute; reflexivity).
  apply list_elem_of_singleton. reflexivity.
Defined.

Lemma find_first {A} (f : A -> bool) (l : list A) (a : A) :
  List.find f l = Some a ->
  exists before after,
    l = before ++ a :: after /\
    Forall (fun b => f b = false) before /\ f a = true.
Proof.
  induction l as [|b l IH]; simpl; [done|].
  destruct (f b) eqn:Hb.
  - intros [= ->]. exists [], l. by repeat split.
  - intros (before & after & -> & Hall & Ha)%IH.
    exists (b :: before), after. repeat split; [|done]. by constructor.
Qed.

Lemma find_nothing {A} (f : A -> bool) (l : list A) :
  List.find f l = None -> Forall (fun b => f b = false) l.
Proof.
  induction l as [|b l IH]; simpl; [by constructor|].
  destruct (f b) eqn:Hb; [done|]. intros H. constructor; auto.
Qed.

Lemma le_not_NaN (a b : number) :
  le a b = true -> isNaN a = false /\ isNaN b = false.
Proof. by destruct a as [[]|[]| |[] ? ?], b as [[]|[]| |[] ? ?]. Qed.

Lemma add_not_NaN (a b : number) :
  isNaN (add a b) = false -> isNaN a = false /\ isNaN b = false.
Proof. by destruct a as [[]|[]| |[] ? ?], b as [[]|[]| |[] ? ?]. Qed.

(** X13: when the pointer moves over the canvas, the item shown is the
    first one, in the order of the items, whose rectangle contains the
    pointer position converted to SVG coordinates (both ends included),
    together with the pointer's client position; none of its [x], [y],
    [width] and [height] is NaN; and no item is shown exactly when no
    rectangle contains that position. *)
Theorem hover_first_match canvasWidth canvasHeight sw sh l
    left top clientX clientY :
  let svgX := div (Page.sub clientX left) (div canvasWidth sw) in
  let svgY := div (Page.sub clientY top) (div canvasHeight sh) in
  let inside item :=
    le (x item) svgX = true /\ le svgX (add (x item) (width item)) = true /\
    le (y item) svgY = true /\ le svgY (add (y item) (height item)) = true in
  match Page.handleCanvasMouseMove canvasWidth canvasHeight sw sh l
          left top clientX clientY with
  | Some (item, px, py) =>
      px = clientX /\ py = clientY /\
      inside item /\
      (exists before after,
         l = before ++ item :: after /\
         Forall (fun i => ~ inside i) before) /\
      isNaN (x item) = false /\ isNaN (y item) = false /\
      isNaN (width item) = false /\ isNaN (height item) = false
  | None => Forall (fun i => ~ inside i) l
  end.
Proof.
  intros svgX svgY inside.
  assert (Hin : forall i, Page.contains svgX svgY i = true <-> inside i).
  { intros i. unfold Page.contains, Page.ge, inside, le.
    rewrite !andb_true_iff. tauto. }
  assert (Hout : forall i, Page.contains svgX svgY i = false -> ~ inside i).
  { intros i Hi Hins. apply Hin in Hins. congruence. }
  unfold Page.handleCanvasMouseMove. fold svgX svgY.
  destruct (List.find (Page.contains svgX svgY) l) as [item|] eqn:Hfind.
  - apply find_first in Hfind as (before & after & -> & Hall & Hc).
    apply Hin in Hc. split; [done|]. split; [done|]. split; [done|].
    split.
    { exists before, after. split; [done|].
      eapply Forall_impl; [exact Hall|]. exact Hout. }
    destruct Hc as (Hx1 & Hx2 & Hy1 & Hy2).
    apply le_not_NaN in Hx1 as [Hx _], Hx2 as [_ Hxw].
    apply le_not_NaN in Hy1 as [Hy _], Hy2 as [_ Hyh].
    apply add_not_NaN in Hxw as [_ Hw], Hyh as [_ Hh]. done.
  - apply find_nothing in Hfind.
    eapply Forall_impl; [exact Hfind|]. exact Hout.
Qed.

(** The pointer at client position (150, 150) over a canvas of 200 x 200
    placed at (50, 50), for an SVG of 100 x 100: SVG position (50, 50). *)
Example hover_second_item :
  let first := {| x := ofZ 60; y := ofZ 60; width := ofZ 10;
                  height := ofZ 10; fill := "#000000"; issue := None |} in
  let second := {| x := ofZ 40; y := ofZ 40; width := ofZ 20;
                   height := ofZ 20; fill := "#f00"; issue := None |} in
  let third := {| x := ofZ 0; y := ofZ 0; width := ofZ 100;
                  height := ofZ 100; fill := "#00f"; issue := None |} in
  Page.handleCanvasMouseMove (ofZ 200) (ofZ 200) (ofZ 100) (ofZ 100)
    [first; second; third] (ofZ 50) (ofZ 50) (ofZ 150) (ofZ 150)
  = Some (second, ofZ 150, ofZ 150).
Proof. vm_compute; reflexivity. Qed.
